(** * Chunked long-audio transcription: the orchestrator of
      [src/transcript/speechtotext.py] ([AudioTranscriber])

    The development embeds the Python code of [AudioTranscriber.chunk_audio],
    [AudioTranscriber.transcribe_batch] and [AudioTranscriber.transcribe_audio]
    and proves the properties of the windowing, batching and error paths;
    it goes on with their callers, [main.py] and [extract_audio] of
    [videourlcovertaudio.py].

    - Python integers are [Z]; Python floats are the kernel's binary64 floats.
    - The generator returned by [chunk_audio] is a control state plus a frame
      of local variables; [next] resumes it up to the following [yield].
    - The audio decoder ([librosa.load]) and the inference pipeline
      ([self.pipe]) are external: they are section variables returning either
      an exception or a value.
    - Loops that the source does not bound are run with fuel; the theorems
      state how much fuel makes them return. *)

From Stdlib Require Import ZArith List String Bool Lia.
From Stdlib Require Import Floats.
Import ListNotations.

Local Open Scope Z_scope.

(* ===================================================================== *)
(** ** Python values used by the source *)

Module Py.

(** An exception: the name of its class and its message. *)
Record exn : Type := mkExn { exn_kind : string; exn_msg : string }.

(** The built-in classes that derive from [BaseException] and not from
    [Exception]: [except Exception] does not catch them. *)
Definition base_exception_only : list string :=
  ["BaseException"; "KeyboardInterrupt"; "SystemExit"; "GeneratorExit";
   "BaseExceptionGroup"; "CancelledError"]%string.

(** [isinstance(e, Exception)], read off the name of the class: every class
    but the ones above is taken to derive from [Exception]. *)
Definition is_exception (e : exn) : bool :=
  negb (existsb (String.eqb (exn_kind e)) base_exception_only).

(** What running a piece of code with fuel gives. *)
Inductive outcome (A : Type) : Type :=
| Returns (a : A)
| Raises (e : exn)
| OutOfFuel.
Arguments Returns {A} a.
Arguments Raises {A} e.
Arguments OutOfFuel {A}.

(** A number as the constructor may receive it: [int] or [float]. *)
Inductive pynum : Type :=
| PyInt (z : Z)
| PyFloat (f : float).

(** Integer part of [(-1)^s * m * 2^e], toward zero. *)
Definition trunc_sf (s : bool) (m : positive) (e : Z) : Z :=
  let a := if 0 <=? e then Z.pos m * 2 ^ e else Z.pos m / 2 ^ (- e) in
  if s then - a else a.

(** Nearest integer of [(-1)^s * m * 2^e], ties to the even one. *)
Definition round_sf (s : bool) (m : positive) (e : Z) : Z :=
  let a :=
    if 0 <=? e then Z.pos m * 2 ^ e
    else
      let d := 2 ^ (- e) in
      let q := Z.pos m / d in
      let r := Z.pos m mod d in
      match 2 * r ?= d with
      | Lt => q
      | Gt => q + 1
      | Eq => if Z.even q then q else q + 1
      end in
  if s then - a else a.

Definition nan_to_int : exn :=
  mkExn "ValueError" "cannot convert float NaN to integer".
Definition inf_to_int : exn :=
  mkExn "OverflowError" "cannot convert float infinity to integer".

(** [int(x)] *)
Definition py_int (x : pynum) : exn + Z :=
  match x with
  | PyInt z => inr z
  | PyFloat f =>
      match Prim2SF f with
      | S754_zero _ => inr 0
      | S754_finite s m e => inr (trunc_sf s m e)
      | S754_infinity _ => inl inf_to_int
      | S754_nan => inl nan_to_int
      end
  end.

(** [round(x)] with one argument *)
Definition py_round (x : pynum) : exn + Z :=
  match x with
  | PyInt z => inr z
  | PyFloat f =>
      match Prim2SF f with
      | S754_zero _ => inr 0
      | S754_finite s m e => inr (round_sf s m e)
      | S754_infinity _ => inl inf_to_int
      | S754_nan => inl nan_to_int
      end
  end.

(** Whether the number is a whole number ([float.is_integer]). *)
Definition py_is_integer (x : pynum) : bool :=
  match x with
  | PyInt _ => true
  | PyFloat f =>
      match Prim2SF f with
      | S754_zero _ => true
      | S754_finite _ m e => (0 <=? e) || (Z.pos m mod 2 ^ (- e) =? 0)
      | _ => false
      end
  end.

Definition len {A : Type} (l : list A) : Z := Z.of_nat (List.length l).

(** A slice bound brought into [0 .. n]: a negative bound counts from the
    end, and everything is clipped. *)
Definition clamp_index (n i : Z) : Z :=
  if i <? 0 then Z.max (i + n) 0 else Z.min i n.

(** [l[a:b]] *)
Definition py_slice {A : Type} (l : list A) (a b : Z) : list A :=
  let n := len l in
  let a' := clamp_index n a in
  let b' := clamp_index n b in
  firstn (Z.to_nat (b' - a')) (skipn (Z.to_nat a') l).

(** [sep.join(l)] *)
Definition join (sep : string) (l : list string) : string :=
  String.concat sep l.

End Py.
Import Py.

(* ===================================================================== *)
(** ** Constants and the transcriber object *)

Definition DEFAULT_CHUNK_LENGTH_SECONDS : Z := 30.
Definition DEFAULT_OVERLAP_SECONDS : Z := 2.
Definition DEFAULT_BATCH_SIZE : Z := 8.
Definition SAMPLE_RATE : Z := 16000.

(** The fields of [self] that the orchestration reads.  [__init__] stores its
    arguments without looking at them; [self.sample_rate] is always
    [SAMPLE_RATE]. *)
Record AudioTranscriber : Type := {
  chunk_length_seconds : pynum;
  overlap_seconds : pynum;
  batch_size : Z
}.

Definition sample_rate (self : AudioTranscriber) : Z := SAMPLE_RATE.

(** [AudioTranscriber(model_id, device, torch_dtype)] with the defaults. *)
Definition default_transcriber : AudioTranscriber :=
  {| chunk_length_seconds := PyInt DEFAULT_CHUNK_LENGTH_SECONDS;
     overlap_seconds := PyInt DEFAULT_OVERLAP_SECONDS;
     batch_size := DEFAULT_BATCH_SIZE |}.

(** [x * self.sample_rate]: the rate is an [int], turned into a float when
    [x] is one. *)
Definition times_rate (x : pynum) (rate : Z) : pynum :=
  match x with
  | PyInt z => PyInt (z * rate)
  | PyFloat f => PyFloat (f * PrimFloat.of_uint63 (Uint63.of_Z rate))%float
  end.

(** [int(self.chunk_length_seconds * self.sample_rate)] *)
Definition chunk_length_samples (self : AudioTranscriber) : exn + Z :=
  py_int (times_rate (chunk_length_seconds self) (sample_rate self)).

(** [int(self.overlap_seconds * self.sample_rate)] *)
Definition overlap_samples (self : AudioTranscriber) : exn + Z :=
  py_int (times_rate (overlap_seconds self) (sample_rate self)).

(** The window sizes as the specification words them, with [round]. *)
Definition spec_chunk_length_samples (self : AudioTranscriber) : exn + Z :=
  py_round (times_rate (chunk_length_seconds self) (sample_rate self)).

Definition spec_overlap_samples (self : AudioTranscriber) : exn + Z :=
  py_round (times_rate (overlap_seconds self) (sample_rate self)).

(* ===================================================================== *)
(** ** The generator of [chunk_audio] *)

Section Chunking.

Context {sample : Type}.

Definition waveform : Type := list sample.

(** A yielded chunk: the slice [audio_data[start:end]], kept together with
    the bounds it was cut with. *)
Record Chunk : Type := {
  c_start : Z;
  c_end : Z;
  c_data : list sample
}.

(** Local variables of the generator while it is paused at [yield]. *)
Record frame : Type := {
  f_chunk_length_samples : Z;
  f_overlap_samples : Z;
  f_start : Z;
  f_end : Z
}.

Inductive generator : Type :=
| Created
| Suspended (fr : frame)
| Finished.

(** Calling [self.chunk_audio(audio_data)] runs none of the body. *)
Definition chunk_audio (self : AudioTranscriber) (audio_data : waveform)
  : generator := Created.

(** From the test of the [while] to the next [yield] or to the end. *)
Definition loop_head (audio_data : waveform) (L Ov start : Z)
  : option Chunk * generator :=
  if start <? len audio_data then
    let end_ := Z.min (start + L) (len audio_data) in
    (Some {| c_start := start; c_end := end_;
             c_data := py_slice audio_data start end_ |},
     Suspended {| f_chunk_length_samples := L; f_overlap_samples := Ov;
                  f_start := start; f_end := end_ |})
  else (None, Finished).

(** [next(g)]: [inr None] is [StopIteration].  The [except] clause of
    [chunk_audio] logs and re-raises, so an exception leaves as it is. *)
Definition next (self : AudioTranscriber) (audio_data : waveform)
           (g : generator) : (exn + option Chunk) * generator :=
  match g with
  | Created =>
      match chunk_length_samples self with
      | inl e => (inl e, Finished)
      | inr L =>
          match overlap_samples self with
          | inl e => (inl e, Finished)
          | inr Ov =>
              let '(c, g') := loop_head audio_data L Ov 0 in (inr c, g')
          end
      end
  | Suspended fr =>
      if f_end fr =? len audio_data then (inr None, Finished)
      else
        let L := f_chunk_length_samples fr in
        let Ov := f_overlap_samples fr in
        let '(c, g') := loop_head audio_data L Ov (f_start fr + (L - Ov)) in
        (inr c, g')
  | Finished => (inr None, Finished)
  end.

(** [list(g)], with fuel: one unit per call of [next]. *)
Fixpoint drain (fuel : nat) (self : AudioTranscriber) (audio_data : waveform)
         (g : generator) : outcome (list Chunk) :=
  match fuel with
  | O => OutOfFuel
  | S fuel' =>
      match next self audio_data g with
      | (inl e, _) => Raises e
      | (inr None, _) => Returns []
      | (inr (Some c), g') =>
          match drain fuel' self audio_data g' with
          | Returns cs => Returns (c :: cs)
          | Raises e => Raises e
          | OutOfFuel => OutOfFuel
          end
      end
  end.

(** [list(self.chunk_audio(audio_data))] *)
Definition chunk_audio_list (fuel : nat) (self : AudioTranscriber)
           (audio_data : waveform) : outcome (list Chunk) :=
  drain fuel self audio_data (chunk_audio self audio_data).

End Chunking.

Arguments waveform : clear implicits.
Arguments Chunk : clear implicits.

(* ===================================================================== *)
(** ** The driver: [load_audio], [transcribe_batch], [transcribe_audio] *)

Section Orchestrator.

Context {sample : Type}.

(** [librosa.load(audio_file, sr=self.sample_rate, mono=True)]: the decoded
    waveform, or the exception the decoder raises. *)
Variable decoder : string -> exn + waveform sample.

(** [self.pipe(audio_chunks, ...)] followed by the extraction of the
    ["text"] of each result: the texts, or the exception raised. *)
Variable pipe : list (list sample) -> exn + list string.

(** The calls that leave the orchestrator, in the order they are made. *)
Inductive event : Type :=
| Load (audio_file : string)
| Infer (audio_chunks : list (list sample))
| EmptyCache.

(** Code that appends to the log of calls and returns, raises, or is
    stopped for lack of fuel. *)
Definition M (A : Type) : Type := list event -> outcome A * list event.

Definition ret {A : Type} (a : A) : M A := fun tr => (Returns a, tr).

Definition raise {A : Type} (e : exn) : M A := fun tr => (Raises e, tr).

Definition out_of_fuel {A : Type} : M A := fun tr => (OutOfFuel, tr).

Definition bind {A B : Type} (c : M A) (k : A -> M B) : M B :=
  fun tr =>
    match c tr with
    | (Returns a, tr') => k a tr'
    | (Raises e, tr') => (Raises e, tr')
    | (OutOfFuel, tr') => (OutOfFuel, tr')
    end.

Definition emit (ev : event) : M unit := fun tr => (Returns tt, tr ++ [ev]).

Definition lift {A : Type} (r : exn + A) : M A :=
  match r with
  | inl e => raise e
  | inr a => ret a
  end.

Local Notation "x <- c ;; k" := (bind c (fun x => k))
  (at level 61, c at next level, right associativity).
Local Notation "c ;;; k" := (bind c (fun _ => k))
  (at level 61, right associativity).

(** [try: ... except Exception as e: logging.error(msg); raise]: caught or
    not, the exception leaves as it came. *)
Definition log_and_reraise {A : Type} (c : M A) : M A := c.

(** [logging.error()] is called without its message: the call itself
    raises. *)
Definition logging_error_no_msg : exn :=
  mkExn "TypeError" "error() missing 1 required positional argument: 'msg'".

(** [try: ... except Exception as e: logging.error()]: an instance of
    [Exception] is caught, and the handler raises in its turn; anything
    else passes. *)
Definition except_logging_error {A : Type} (c : M A) : M A :=
  fun tr =>
    match c tr with
    | (Raises e, tr') =>
        if is_exception e then (Raises logging_error_no_msg, tr')
        else (Raises e, tr')
    | r => r
    end.

Definition load_audio (self : AudioTranscriber) (audio_file : string)
  : M (waveform sample) :=
  log_and_reraise (emit (Load audio_file) ;;; lift (decoder audio_file)).

Definition transcribe_batch (self : AudioTranscriber)
           (audio_chunks : list (list sample)) : M (list string) :=
  log_and_reraise (emit (Infer audio_chunks) ;;; lift (pipe audio_chunks)).

(** [torch.cuda.empty_cache()] *)
Definition empty_cache : M unit := emit EmptyCache.

(** The [for chunk in tqdm(audio_chunks_generator, ...)] loop ([tqdm] hands
    the chunks on as they come), one unit of fuel per call of [next]; it
    gives back [batch_chunks] and [all_transcriptions] as they are when the
    generator is exhausted.  [batch_chunks.append(chunk.copy())] keeps the
    samples of the chunk. *)
Fixpoint for_chunks (fuel : nat) (self : AudioTranscriber)
         (audio_data : waveform sample) (g : generator)
         (batch_chunks : list (list sample))
         (all_transcriptions : list string)
  : M (list (list sample) * list string) :=
  match fuel with
  | O => out_of_fuel
  | S fuel' =>
      match next self audio_data g with
      | (inl e, _) => raise e
      | (inr None, _) => ret (batch_chunks, all_transcriptions)
      | (inr (Some chunk), g') =>
          let batch_chunks := batch_chunks ++ [c_data chunk] in
          if len batch_chunks =? batch_size self then
            transcriptions <- transcribe_batch self batch_chunks ;;
            empty_cache ;;;
            for_chunks fuel' self audio_data g' []
                       (all_transcriptions ++ transcriptions)
          else
            for_chunks fuel' self audio_data g' batch_chunks
                       all_transcriptions
      end
  end.

(** What follows the loop: the batch that is left, if any, and the join. *)
Definition after_loop (self : AudioTranscriber)
           (st : list (list sample) * list string) : M string :=
  let '(batch_chunks, all_transcriptions) := st in
  all_transcriptions <-
    match batch_chunks with
    | [] => ret all_transcriptions
    | _ :: _ =>
        transcriptions <- transcribe_batch self batch_chunks ;;
        ret (all_transcriptions ++ transcriptions)
    end ;;
  ret (join " " all_transcriptions).

(** The body of the [try] of [transcribe_audio]. *)
Definition transcribe_audio_body (fuel : nat) (self : AudioTranscriber)
           (audio_file : string) : M string :=
  audio_data <- load_audio self audio_file ;;
  let audio_chunks_generator := chunk_audio self audio_data in
  st <- for_chunks fuel self audio_data audio_chunks_generator [] [] ;;
  after_loop self st.

Definition transcribe_audio (fuel : nat) (self : AudioTranscriber)
           (audio_file : string) : M string :=
  except_logging_error (transcribe_audio_body fuel self audio_file).

(** The batches handed to the pipeline, read off a log. *)
Fixpoint infer_calls (tr : list event) : list (list (list sample)) :=
  match tr with
  | [] => []
  | Infer b :: tr' => b :: infer_calls tr'
  | _ :: tr' => infer_calls tr'
  end.

(** The same loop over chunks that are already there: what [for_chunks]
    does once the generator is known to yield [chunks] and stop. *)
Fixpoint for_list (self : AudioTranscriber) (chunks : list (list sample))
         (batch_chunks : list (list sample))
         (all_transcriptions : list string)
  : M (list (list sample) * list string) :=
  match chunks with
  | [] => ret (batch_chunks, all_transcriptions)
  | chunk :: chunks' =>
      let batch_chunks := batch_chunks ++ [chunk] in
      if len batch_chunks =? batch_size self then
        transcriptions <- transcribe_batch self batch_chunks ;;
        empty_cache ;;;
        for_list self chunks' [] (all_transcriptions ++ transcriptions)
      else
        for_list self chunks' batch_chunks all_transcriptions
  end.

(** Code whose outcome and calls do not depend on the calls made before. *)
Definition uniform {A : Type} (c : M A) : Prop :=
  exists (r : outcome A) (evs : list event), forall tr, c tr = (r, tr ++ evs).

End Orchestrator.

Arguments event : clear implicits.
Arguments M : clear implicits.

(** The batches that the loop and the step after it hand over, for a buffer
    [buf] and the chunks still to come. *)
Fixpoint batches {X : Type} (B : Z) (buf : list X) (chunks : list X)
  : list (list X) :=
  match chunks with
  | [] => match buf with [] => [] | _ :: _ => [buf] end
  | chunk :: chunks' =>
      let buf' := buf ++ [chunk] in
      if len buf' =? B then buf' :: batches B [] chunks'
      else batches B buf' chunks'
  end.

(* ===================================================================== *)
(** ** The callers: [main.py] and [extract_audio] *)

Definition model_id : string := "openai/whisper-large-v3-turbo".
Definition main_audio_file : string :=
  "/scratch/hemanth/Hemanth/output_audio.mp3.mp3".
Definition main_output_file : string :=
  "/scratch/hemanth/Hemanth/transcription1.txt".

Section Caller.

Context {sample : Type}.

(** [from_pretrained], [model.to] and [pipeline(...)]: done, or the
    exception raised. *)
Variable loader : string -> exn + unit.
Variable decoder : string -> exn + waveform sample.
Variable pipe : list (list sample) -> exn + list string.

(** [yt_dlp.YoutubeDL(ydl_opts).download([video_url])] with [outtmpl] set
    to the output file. *)
Variable downloader : string -> string -> exn + unit.

(** [open(output_file, "w", encoding="utf-8")] and [f.write]. *)
Variable writer : string -> string -> exn + unit.

(** What the scripts do to the outside, in order. *)
Inductive io : Type :=
| LoadModel (model : string)
| Call (ev : event sample)
| Download (url output_file : string)
| WriteFile (path content : string)
| Print (msg : string).

(** [try: ... return model, processor, pipe
     except Exception as e: logging.error(...); raise] *)
Definition _load_model_and_pipeline (model : string)
  : outcome unit * list io :=
  match loader model with
  | inl e => (Raises e, [LoadModel model])
  | inr _ => (Returns tt, [LoadModel model])
  end.

(** [AudioTranscriber(model_id, device, torch_dtype, chunk_length_seconds,
    overlap_seconds, batch_size)]: the arguments are stored as they come,
    then the model is loaded. *)
Definition __init__ (model : string) (chunk_length overlap : pynum)
           (batch : Z) : outcome AudioTranscriber * list io :=
  match _load_model_and_pipeline model with
  | (Returns _, tr) =>
      (Returns {| chunk_length_seconds := chunk_length;
                  overlap_seconds := overlap;
                  batch_size := batch |}, tr)
  | (Raises e, tr) => (Raises e, tr)
  | (OutOfFuel, tr) => (OutOfFuel, tr)
  end.


(** [main()]: its handler is [except Exception as e: raise], so whatever
    is raised in the body leaves as it is.  The two calls of [print] that
    end the body are taken to return. *)
Definition main (fuel : nat) : outcome unit * list io :=
  match __init__ model_id (PyInt DEFAULT_CHUNK_LENGTH_SECONDS)
                 (PyInt DEFAULT_OVERLAP_SECONDS) DEFAULT_BATCH_SIZE with
  | (Raises e, tr0) => (Raises e, tr0)
  | (OutOfFuel, tr0) => (OutOfFuel, tr0)
  | (Returns transcriber, tr0) =>
      match transcribe_audio decoder pipe fuel transcriber main_audio_file []
      with
      | (Raises e, tr) => (Raises e, tr0 ++ map Call tr)
      | (OutOfFuel, tr) => (OutOfFuel, tr0 ++ map Call tr)
      | (Returns transcription, tr) =>
          match writer main_output_file transcription with
          | inl e =>
              (Raises e,
               tr0 ++ map Call tr ++ [WriteFile main_output_file transcription])
          | inr _ =>
              (Returns tt,
               tr0 ++ map Call tr
                   ++ [WriteFile main_output_file transcription;
                       Print "
Transcription:";
                       Print transcription])
          end
      end
  end.


(** The files written, read off a log. *)
Fixpoint writes (tr : list io) : list (string * string) :=
  match tr with
  | [] => []
  | WriteFile path content :: tr' => (path, content) :: writes tr'
  | _ :: tr' => writes tr'
  end.

End Caller.

Arguments io : clear implicits.

(* ===================================================================== *)
(** ** Notions used in the statements *)

(** [ceil(a / b)] for a positive [b], written with the floor division. *)
Definition ceil_div (a b : Z) : Z := - ((- a) / b).

Section Windows.

Context {sample : Type}.
Variable audio_data : waveform sample.
Variables L Ov : Z.

(** A chunk cut by one pass through the loop body. *)
Definition wf_chunk (c : Chunk sample) : Prop :=
  c_start c < len audio_data /\
  c_end c = Z.min (c_start c + L) (len audio_data) /\
  c_data c = py_slice audio_data (c_start c) (c_end c).

(** The chunks yielded after a chunk cut at [prev_start : prev_end]: the
    loop left at the [break] or at the test of the [while], or it went on
    with a further chunk one stride later. *)
Fixpoint follows (prev_start prev_end : Z) (cs : list (Chunk sample))
  : Prop :=
  match cs with
  | [] => prev_end = len audio_data \/ len audio_data <= prev_start + (L - Ov)
  | c :: cs' =>
      prev_end <> len audio_data /\
      c_start c = prev_start + (L - Ov) /\
      wf_chunk c /\
      follows (c_start c) (c_end c) cs'
  end.

(** All the chunks of one run of the generator. *)
Definition chunks_ok (cs : list (Chunk sample)) : Prop :=
  match cs with
  | [] => len audio_data = 0
  | c :: cs' => c_start c = 0 /\ wf_chunk c /\ follows (c_start c) (c_end c) cs'
  end.

(** The waveform put together again from the chunks: the first chunk, then
    every later chunk without its first [Ov] samples. *)
Definition stitch (cs : list (Chunk sample)) : list sample :=
  match cs with
  | [] => []
  | c :: cs' =>
      c_data c ++ List.concat (map (fun c' => skipn (Z.to_nat Ov) (c_data c')) cs')
  end.

End Windows.

(** The calls of a run that hands over the batches [bs]: a full batch is
    followed by [torch.cuda.empty_cache()]. *)
Definition events_of {sample : Type} (B : Z) (bs : list (list (list sample)))
  : list (event sample) :=
  flat_map (fun b => if len b =? B then [Infer b; EmptyCache] else [Infer b]) bs.

(** How often [torch.cuda.empty_cache()] was called, read off a log. *)
Fixpoint empty_cache_calls {sample : Type} (tr : list (event sample)) : Z :=
  match tr with
  | [] => 0
  | EmptyCache :: tr' => 1 + empty_cache_calls tr'
  | _ :: tr' => empty_cache_calls tr'
  end.

(** The samples handed to the pipeline, overlaps counted as often as they
    are sent. *)
Definition total_samples {sample : Type} (cs : list (Chunk sample)) : Z :=
  fold_right (fun c acc => len (c_data c) + acc) 0 cs.

(** The generator of [self] on [audio_data] comes to its end. *)
Definition terminates {sample : Type} (self : AudioTranscriber)
           (audio_data : waveform sample) : Prop :=
  exists fuel cs, chunk_audio_list fuel self audio_data = Returns cs.

(* ===================================================================== *)
(** ** Concrete inputs *)

(** The 70-sample scenario: at 16 kHz, 0.001875 s and 0.000625 s are a
    window of 30 samples and an overlap of 10 samples; batches of 2. *)
Definition scenario_transcriber : AudioTranscriber :=
  {| chunk_length_seconds := PyFloat 0x1.eb851eb851eb8p-10;
     overlap_seconds := PyFloat 0x1.47ae147ae147bp-11;
     batch_size := 2 |}.

Definition scenario_waveform : waveform nat := List.seq 0 70.

(** [AudioTranscriber(..., chunk_length_seconds=2, overlap_seconds=2)]:
    the overlap is as long as the window, the stride is 0. *)
Definition zero_stride_transcriber : AudioTranscriber :=
  {| chunk_length_seconds := PyInt 2;
     overlap_seconds := PyInt 2;
     batch_size := DEFAULT_BATCH_SIZE |}.

(** [AudioTranscriber(..., chunk_length_seconds=1, overlap_seconds=1)] and a
    waveform one sample longer than its window of 16000 samples. *)
Definition stuck_transcriber : AudioTranscriber :=
  {| chunk_length_seconds := PyInt 1;
     overlap_seconds := PyInt 1;
     batch_size := DEFAULT_BATCH_SIZE |}.

Definition stuck_waveform : waveform nat := List.repeat 0%nat (Z.to_nat 16001).

(** [AudioTranscriber(..., chunk_length_seconds=0, overlap_seconds=-1)]: a
    window of 0 samples and a stride of 16000 samples. *)
Definition empty_window_transcriber : AudioTranscriber :=
  {| chunk_length_seconds := PyInt 0;
     overlap_seconds := PyInt (-1);
     batch_size := DEFAULT_BATCH_SIZE |}.

(** [AudioTranscriber(..., chunk_length_seconds=0.005859375)]: 3/512 s is
    93.75 samples at 16 kHz. *)
Definition fractional_transcriber : AudioTranscriber :=
  {| chunk_length_seconds := PyFloat 0x1.8p-8;
     overlap_seconds := PyInt 0;
     batch_size := DEFAULT_BATCH_SIZE |}.

(** [AudioTranscriber(..., chunk_length_seconds=float("nan"))]. *)
Definition nan_transcriber : AudioTranscriber :=
  {| chunk_length_seconds := PyFloat PrimFloat.nan;
     overlap_seconds := PyInt DEFAULT_OVERLAP_SECONDS;
     batch_size := DEFAULT_BATCH_SIZE |}.

(** [AudioTranscriber(..., overlap_seconds=float("nan"))]: the window is the
    default one, the overlap is not a number. *)
Definition nan_overlap_transcriber : AudioTranscriber :=
  {| chunk_length_seconds := PyInt DEFAULT_CHUNK_LENGTH_SECONDS;
     overlap_seconds := PyFloat PrimFloat.nan;
     batch_size := DEFAULT_BATCH_SIZE |}.

(** Windows of 30 samples with an overlap of -10 samples: 0.001875 s and
    -0.000625 s at 16 kHz. *)
Definition gap_transcriber : AudioTranscriber :=
  {| chunk_length_seconds := PyFloat 0x1.eb851eb851eb8p-10;
     overlap_seconds := PyFloat (-0x1.47ae147ae147bp-11);
     batch_size := 2 |}.

(** Windows of 30 samples that do not overlap. *)
Definition contiguous_transcriber : AudioTranscriber :=
  {| chunk_length_seconds := PyFloat 0x1.eb851eb851eb8p-10;
     overlap_seconds := PyInt 0;
     batch_size := 2 |}.

(** The scenario with a batch size of 0. *)
Definition unbatched_transcriber : AudioTranscriber :=
  {| chunk_length_seconds := PyFloat 0x1.eb851eb851eb8p-10;
     overlap_seconds := PyFloat 0x1.47ae147ae147bp-11;
     batch_size := 0 |}.

(** The outside of [main.py] when everything works: the model loads, the
    file of [main] decodes to the 70 samples, files can be written. *)
Definition ok_loader (model : string) : exn + unit := inr tt.

Definition main_decoder (audio_file : string) : exn + waveform nat :=
  if String.eqb audio_file main_audio_file then inr scenario_waveform
  else inl (mkExn "FileNotFoundError" audio_file).

Definition ok_writer (path content : string) : exn + unit := inr tt.

(** A decoder that finds no file, and a download that fails. *)
Definition no_decoder (audio_file : string) : exn + waveform nat :=
  inl (mkExn "FileNotFoundError" audio_file).


(** A decoder that knows one file, and a pipeline that gives one word per
    chunk. *)
Definition demo_decoder (audio_file : string) : exn + waveform nat :=
  if String.eqb audio_file "speech.wav" then inr scenario_waveform
  else inl (mkExn "FileNotFoundError" audio_file).

Definition demo_fragment (chunk : list nat) : string :=
  match chunk with
  | 0%nat :: _ => "alpha"
  | 20%nat :: _ => "beta"
  | _ => "gamma"
  end.

Definition demo_pipe (audio_chunks : list (list nat)) : exn + list string :=
  inr (map demo_fragment audio_chunks).

(** A pipeline that fails on every batch that is not full. *)
Definition flaky_pipe (audio_chunks : list (list nat)) : exn + list string :=
  if len audio_chunks =? 2 then inr (map demo_fragment audio_chunks)
  else inl (mkExn "RuntimeError" "CUDA out of memory").

(* ===================================================================== *)
(** ** Slices *)

Section SliceFacts.

Context {A : Type}.
Implicit Types l : list A.

Lemma len_nonneg l : 0 <= len l.
Proof. unfold len; lia. Qed.

Lemma len_nil_iff l : len l = 0 <-> l = [].
Proof.
  unfold len; split; intros H.
  - destruct l; [reflexivity | cbn in H; lia].
  - subst; reflexivity.
Qed.

Lemma clamp_index_id n i : 0 <= i <= n -> clamp_index n i = i.
Proof.
  intros H; unfold clamp_index.
  destruct (Z.ltb_spec i 0); lia.
Qed.

(** Inside the bounds a slice is [firstn] after [skipn]. *)
Lemma py_slice_inside l a b :
  0 <= a <= len l -> 0 <= b <= len l ->
  py_slice l a b = firstn (Z.to_nat (b - a)) (skipn (Z.to_nat a) l).
Proof.
  intros Ha Hb; unfold py_slice.
  rewrite !clamp_index_id by assumption; reflexivity.
Qed.

Lemma len_py_slice l a b :
  0 <= a -> a <= b -> b <= len l -> len (py_slice l a b) = b - a.
Proof.
  intros Ha Hab Hb.
  rewrite py_slice_inside by lia.
  unfold len in *.
  rewrite length_firstn, length_skipn; lia.
Qed.

Lemma firstn_skipn_app l (i j : nat) :
  firstn i l ++ firstn j (skipn i l) = firstn (i + j) l.
Proof.
  revert l; induction i as [|i IH]; intros l; cbn.
  - reflexivity.
  - destruct l as [|x l]; cbn.
    + now rewrite firstn_nil.
    + now rewrite IH.
Qed.

(** Two slices that touch make one slice. *)
Lemma py_slice_app l a b c :
  0 <= a -> a <= b -> b <= c -> c <= len l ->
  py_slice l a b ++ py_slice l b c = py_slice l a c.
Proof.
  intros Ha Hab Hbc Hc.
  rewrite !py_slice_inside by lia.
  replace (Z.to_nat b) with (Z.to_nat (b - a) + Z.to_nat a)%nat by lia.
  rewrite <- skipn_skipn.
  replace (Z.to_nat (c - a)) with (Z.to_nat (b - a) + Z.to_nat (c - b))%nat
    by lia.
  apply firstn_skipn_app.
Qed.

Lemma py_slice_skipn l a b k :
  0 <= a -> 0 <= k -> a + k <= b -> b <= len l ->
  skipn (Z.to_nat k) (py_slice l a b) = py_slice l (a + k) b.
Proof.
  intros Ha Hk Hab Hb.
  rewrite !py_slice_inside by lia.
  rewrite skipn_firstn_comm, skipn_skipn.
  f_equal; [lia | f_equal; lia].
Qed.

Lemma py_slice_all l : py_slice l 0 (len l) = l.
Proof.
  rewrite py_slice_inside by (pose proof (len_nonneg l); lia).
  cbn. rewrite Z.sub_0_r. unfold len. rewrite Nat2Z.id.
  apply firstn_all.
Qed.

Lemma py_slice_empty l a : 0 <= a <= len l -> py_slice l a a = [].
Proof.
  intros H. rewrite py_slice_inside by lia.
  now rewrite Z.sub_diag.
Qed.

End SliceFacts.

(* ===================================================================== *)
(** ** The run of the generator *)

Section GeneratorFacts.

Context {sample : Type}.
Variable self : AudioTranscriber.
Variable audio_data : waveform sample.
Variables L Ov : Z.
Hypothesis HL : chunk_length_samples self = inr L.
Hypothesis HO : overlap_samples self = inr Ov.

Local Abbreviation n := (len audio_data).

Lemma next_created :
  next self audio_data Created =
  let '(c, g') := loop_head audio_data L Ov 0 in (inr c, g').
Proof. cbn [next]. now rewrite HL, HO. Qed.

(** With a stride of at least one sample the generator, resumed after any
    chunk, comes to its end within the fuel that the distance to the end
    of the waveform asks for. *)
Lemma drain_suspended :
  1 <= L - Ov ->
  forall (fuel : nat) (fr : frame),
    f_chunk_length_samples fr = L ->
    f_overlap_samples fr = Ov ->
    (Z.to_nat (n - (f_start fr + (L - Ov))) < fuel)%nat ->
    exists cs,
      drain fuel self audio_data (Suspended fr) = Returns cs /\
      follows audio_data L Ov (f_start fr) (f_end fr) cs /\
      (List.length cs <= Z.to_nat (n - (f_start fr + (L - Ov))))%nat.
Proof.
  intros Hs fuel.
  induction fuel as [|k IH]; intros fr HfL HfO Hfuel; [lia|].
  cbn [drain next].
  destruct (Z.eqb_spec (f_end fr) (len audio_data)) as [E|E].
  - exists []. cbn. repeat split; [now left | lia].
  - rewrite HfL, HfO. unfold loop_head.
    destruct (Z.ltb_spec (f_start fr + (L - Ov)) (len audio_data)) as [E2|E2].
    + set (st := f_start fr + (L - Ov)) in *.
      set (fr' := {| f_chunk_length_samples := L; f_overlap_samples := Ov;
                     f_start := st;
                     f_end := Z.min (st + L) (len audio_data) |}).
      destruct (IH fr') as (cs & Hd & Hf & Hlen);
        [reflexivity | reflexivity | cbn; lia |].
      rewrite Hd. eexists; split; [reflexivity|].
      split.
      * cbn. repeat split; try assumption; try reflexivity.
      * cbn in *; lia.
    + exists []. cbn. repeat split; [right; assumption | lia].
Qed.

(** The whole run: it returns, and its chunks are those of the loop. *)
Lemma chunk_audio_list_shape :
  1 <= L - Ov ->
  forall fuel : nat,
    (List.length audio_data < fuel)%nat ->
    exists cs,
      chunk_audio_list fuel self audio_data = Returns cs /\
      chunks_ok audio_data L Ov cs /\
      (List.length cs <= List.length audio_data)%nat.
Proof.
  intros Hs fuel Hfuel.
  destruct fuel as [|k]; [lia|].
  unfold chunk_audio_list, chunk_audio. cbn [drain].
  rewrite next_created. unfold loop_head.
  destruct (Z.ltb_spec 0 (len audio_data)) as [E|E].
  - set (fr := {| f_chunk_length_samples := L; f_overlap_samples := Ov;
                  f_start := 0;
                  f_end := Z.min (0 + L) (len audio_data) |}).
    destruct (drain_suspended Hs k fr) as (cs & Hd & Hf & Hlen);
      [reflexivity | reflexivity | unfold len in *; cbn; lia |].
    rewrite Hd. eexists; split; [reflexivity|]. split.
    + cbn. repeat split; try assumption; reflexivity.
    + unfold len in *; cbn in *; lia.
  - exists []. cbn. pose proof (len_nonneg audio_data).
    repeat split; lia.
Qed.

End GeneratorFacts.

(* ===================================================================== *)
(** ** What the chunks of one run look like *)

Lemma ceil_div_0 (s : Z) : ceil_div 0 s = 0.
Proof. reflexivity. Qed.

Lemma ceil_div_within (a s : Z) : 0 < a <= s -> ceil_div a s = 1.
Proof.
  intros H. unfold ceil_div.
  assert (E : - a / s = - 1)
    by (symmetry; apply Z.div_unique with (r := s - a); lia).
  rewrite E. reflexivity.
Qed.

Lemma ceil_div_step (a s : Z) : 0 < s -> 1 + ceil_div (a - s) s = ceil_div a s.
Proof.
  intros H. unfold ceil_div.
  replace (- (a - s)) with (- a + 1 * s) by lia.
  rewrite Z.div_add by lia. lia.
Qed.

Lemma last_cons_default {A : Type} (x d : A) (l : list A) :
  last (x :: l) d = last l x.
Proof.
  revert x d; induction l as [|y l IH]; intros x d; [reflexivity|].
  change (last (x :: y :: l) d) with (last (y :: l) d).
  now rewrite !IH.
Qed.

Section WindowFacts.

Context {sample : Type}.
Variable audio_data : waveform sample.
Variables L Ov : Z.

Local Abbreviation n := (len audio_data).
Local Abbreviation follows := (follows audio_data L Ov).
Local Abbreviation wf_chunk := (wf_chunk audio_data L).
Local Abbreviation chunks_ok := (chunks_ok audio_data L Ov).

(** A chunk that is not the last one is a full window, and the next one
    starts [Ov] samples before its end.  This holds whatever the signs of
    [L] and [Ov]. *)
Lemma follows_chain cs : forall ps pe,
  follows ps pe cs ->
  forall (i : nat) c c',
    nth_error cs i = Some c -> nth_error cs (S i) = Some c' ->
    c_end c = c_start c + L /\ c_start c' = c_end c - Ov.
Proof.
  induction cs as [|c0 cs IH]; intros ps pe Hf i c c' Hi Hi'.
  - destruct i; discriminate.
  - destruct Hf as (_ & _ & (_ & Hend & _) & Hf).
    destruct i as [|i].
    + injection Hi as <-. destruct cs as [|c1 cs]; [discriminate|].
      injection Hi' as <-. destruct Hf as (Hne & Hst & _). lia.
    + exact (IH _ _ Hf i c c' Hi Hi').
Qed.

Lemma chunks_ok_chain cs :
  chunks_ok cs ->
  forall (i : nat) c c',
    nth_error cs i = Some c -> nth_error cs (S i) = Some c' ->
    c_end c = c_start c + L /\ c_start c' = c_end c - Ov.
Proof.
  intros Hok i c c' Hi Hi'.
  destruct cs as [|c0 cs]; [destruct i; discriminate|].
  destruct Hok as (_ & (_ & Hend & _) & Hf).
  destruct i as [|i].
  - injection Hi as <-. destruct cs as [|c1 cs]; [discriminate|].
    injection Hi' as <-. destruct Hf as (Hne & Hst & _). lia.
  - exact (follows_chain _ _ _ Hf i c c' Hi Hi').
Qed.

(** Every chunk is the slice of its window, and the window lies inside the
    waveform once the stride is positive. *)
Lemma follows_wf cs : forall ps pe,
  follows ps pe cs -> Forall wf_chunk cs.
Proof.
  induction cs as [|c cs IH]; intros ps pe Hf; constructor.
  - apply Hf.
  - destruct Hf as (_ & _ & _ & Hf). exact (IH _ _ Hf).
Qed.

Lemma follows_start_nonneg cs : forall ps pe,
  1 <= L - Ov -> 0 <= ps -> follows ps pe cs ->
  Forall (fun c => 0 <= c_start c) cs.
Proof.
  induction cs as [|c cs IH]; intros ps pe Hs Hps Hf; constructor.
  - destruct Hf as (_ & Hst & _). lia.
  - destruct Hf as (_ & Hst & _ & Hf). apply (IH _ _ Hs) in Hf; [exact Hf | lia].
Qed.

Section Valid.

Hypothesis HOv : 0 <= Ov.
Hypothesis Hs : 1 <= L - Ov.

(** The run ends on a chunk that reaches the end of the waveform. *)
Lemma follows_last cs : forall ps pe,
  pe = Z.min (ps + L) n ->
  follows ps pe cs ->
  last (map c_end cs) pe = n.
Proof.
  induction cs as [|c cs IH]; intros ps pe Hpe Hf.
  - cbn in *. lia.
  - cbn [map]. rewrite last_cons_default.
    destruct Hf as (_ & _ & (_ & Hend & _) & Hf).
    exact (IH _ _ Hend Hf).
Qed.

(** How many chunks follow a chunk that ended at [pe]. *)
Lemma follows_count cs : forall ps pe,
  pe = Z.min (ps + L) n ->
  follows ps pe cs ->
  Z.of_nat (List.length cs) = ceil_div (n - pe) (L - Ov).
Proof.
  induction cs as [|c cs IH]; intros ps pe Hpe Hf.
  - cbn in *. replace (n - pe) with 0 by lia.
    now rewrite ceil_div_0.
  - destruct Hf as (Hne & Hst & (Hlt & Hend & _) & Hf).
    cbn [List.length]. rewrite Nat2Z.inj_succ, (IH _ _ Hend Hf).
    destruct (Z_lt_le_dec (pe + (L - Ov)) n) as [Hfar|Hnear].
    + replace (n - c_end c) with (n - pe - (L - Ov)) by lia.
      rewrite <- (ceil_div_step (n - pe)) by lia. lia.
    + replace (n - c_end c) with 0 by lia.
      rewrite ceil_div_0, ceil_div_within by lia. reflexivity.
Qed.

(** The later chunks, each without its first [Ov] samples, are the rest
    of the waveform after [pe]. *)
Lemma follows_stitch cs : forall ps pe,
  0 <= ps ->
  pe = Z.min (ps + L) n ->
  follows ps pe cs ->
  List.concat (map (fun c' => skipn (Z.to_nat Ov) (c_data c')) cs)
  = py_slice audio_data pe n.
Proof.
  induction cs as [|c cs IH]; intros ps pe Hps Hpe Hf.
  - cbn in *. replace pe with n by lia.
    symmetry. apply py_slice_empty.
    pose proof (len_nonneg audio_data). lia.
  - destruct Hf as (Hne & Hst & (Hlt & Hend & Hdata) & Hf).
    cbn [map List.concat].
    assert (Hc0 : 0 <= c_start c) by lia.
    rewrite (IH _ _ Hc0 Hend Hf), Hdata.
    rewrite py_slice_skipn by lia.
    replace (c_start c + Ov) with pe by lia.
    apply py_slice_app; lia.
Qed.

(** Every sample after [pe] lies in one of the later windows. *)
Lemma follows_cover cs : forall ps pe,
  pe = Z.min (ps + L) n ->
  follows ps pe cs ->
  forall i, pe <= i < n ->
            exists c, In c cs /\ c_start c <= i < c_end c.
Proof.
  induction cs as [|c cs IH]; intros ps pe Hpe Hf i Hi.
  - cbn in Hf. lia.
  - destruct Hf as (Hne & Hst & (Hlt & Hend & _) & Hf).
    destruct (Z_lt_le_dec i (c_end c)) as [Hin|Hout].
    + exists c. split; [now left | lia].
    + assert (Hi' : c_end c <= i < n) by lia.
      destruct (IH _ _ Hend Hf i Hi') as (c' & Hc' & Hr).
      exists c'. split; [now right | exact Hr].
Qed.

End Valid.

(** Sizes of the chunks, for a window of at least one sample and a stride
    of at least one sample. *)
Lemma wf_chunk_len c :
  1 <= L -> 0 <= c_start c -> wf_chunk c ->
  len (c_data c) = c_end c - c_start c /\ 1 <= len (c_data c) <= L.
Proof.
  intros HL Hst (Hlt & Hend & Hdata).
  rewrite Hdata, len_py_slice by lia. lia.
Qed.

End WindowFacts.

Section RunFacts.

Context {sample : Type}.
Variable audio_data : waveform sample.
Variables L Ov : Z.
Hypothesis Hs : 1 <= L - Ov.

Lemma chunks_ok_inside cs :
  chunks_ok audio_data L Ov cs ->
  Forall (fun c => 0 <= c_start c /\ wf_chunk audio_data L c) cs.
Proof.
  intros Hok. destruct cs as [|c cs]; [constructor|].
  destruct Hok as (H0 & Hwf & Hf).
  pose proof (follows_wf _ _ _ _ _ _ Hf) as Hall.
  assert (Hc0 : 0 <= c_start c) by lia.
  pose proof (follows_start_nonneg _ _ _ _ _ _ Hs Hc0 Hf) as Hpos.
  constructor; [split; [lia | exact Hwf]|].
  rewrite Forall_forall in *. intros c' Hin. split; [apply Hpos | apply Hall]; exact Hin.
Qed.

Lemma chunks_ok_nonempty cs :
  chunks_ok audio_data L Ov cs -> audio_data <> [] -> cs <> [].
Proof.
  intros Hok HW ->. cbn in Hok. now apply len_nil_iff in Hok.
Qed.

Hypothesis HOv : 0 <= Ov.

Lemma chunks_ok_last cs :
  chunks_ok audio_data L Ov cs -> last (map c_end cs) 0 = len audio_data.
Proof.
  intros Hok. destruct cs as [|c cs]; [cbn in *; lia|].
  destruct Hok as (H0 & (Hlt & Hend & Hdata) & Hf).
  cbn [map]. rewrite last_cons_default.
  eapply follows_last; eassumption.
Qed.

Lemma chunks_ok_stitch cs :
  chunks_ok audio_data L Ov cs -> stitch Ov cs = audio_data.
Proof.
  intros Hok. destruct cs as [|c cs].
  - cbn in *. symmetry. now apply len_nil_iff.
  - destruct Hok as (H0 & (Hlt & Hend & Hdata) & Hf). cbn [stitch].
    assert (Hc0 : 0 <= c_start c) by lia.
    rewrite (follows_stitch _ _ _ HOv Hs _ _ _ Hc0 Hend Hf), Hdata, H0.
    rewrite py_slice_app by lia.
    apply py_slice_all.
Qed.

Lemma chunks_ok_cover cs :
  chunks_ok audio_data L Ov cs ->
  forall i, 0 <= i < len audio_data ->
            exists c, In c cs /\ c_start c <= i < c_end c.
Proof.
  intros Hok i Hi. destruct cs as [|c cs]; [cbn in Hok; lia|].
  destruct Hok as (H0 & (Hlt & Hend & Hdata) & Hf).
  destruct (Z_lt_le_dec i (c_end c)) as [Hin|Hout].
  - exists c. split; [now left | lia].
  - assert (Hi' : c_end c <= i < len audio_data) by lia.
    destruct (follows_cover _ _ _ HOv Hs _ _ _ Hend Hf i Hi') as (c' & Hc' & Hr).
    exists c'. split; [now right | exact Hr].
Qed.

Lemma chunks_ok_count cs :
  chunks_ok audio_data L Ov cs ->
  (len audio_data = 0 -> List.length cs = 0%nat) /\
  (0 < len audio_data <= L -> List.length cs = 1%nat) /\
  (L < len audio_data ->
   Z.of_nat (List.length cs) = ceil_div (len audio_data - Ov) (L - Ov)).
Proof.
  intros Hok. destruct cs as [|c cs].
  - cbn in Hok. pose proof (len_nonneg audio_data).
    repeat split; intros; try reflexivity; lia.
  - destruct Hok as (H0 & (Hlt & Hend & Hdata) & Hf).
    pose proof (follows_count _ _ _ HOv Hs _ _ _ Hend Hf) as Hcount.
    repeat split; intros H.
    + lia.
    + replace (len audio_data - c_end c) with 0 in Hcount by lia.
      rewrite ceil_div_0 in Hcount. cbn [List.length]. lia.
    + cbn [List.length]. rewrite Nat2Z.inj_succ, Hcount.
      replace (len audio_data - c_end c) with (len audio_data - Ov - (L - Ov)) by lia.
      rewrite <- (ceil_div_step (len audio_data - Ov)) by lia. lia.
Qed.

End RunFacts.

(* ===================================================================== *)
(** ** A stride below one sample *)

Section NoStride.

Context {sample : Type}.
Variable self : AudioTranscriber.
Variable audio_data : waveform sample.
Variables L Ov : Z.
Hypothesis HL : chunk_length_samples self = inr L.
Hypothesis HO : overlap_samples self = inr Ov.
Hypothesis Hs : L - Ov < 1.

(** Nothing looks at the stride: the first [next] cuts the first window. *)
Lemma first_chunk_emitted :
  audio_data <> [] ->
  next self audio_data (chunk_audio self audio_data) =
  (inr (Some {| c_start := 0;
                c_end := Z.min (0 + L) (len audio_data);
                c_data := py_slice audio_data 0 (Z.min (0 + L) (len audio_data)) |}),
   Suspended {| f_chunk_length_samples := L; f_overlap_samples := Ov;
                f_start := 0; f_end := Z.min (0 + L) (len audio_data) |}).
Proof.
  intros HW. unfold chunk_audio. rewrite (next_created _ _ _ _ HL HO).
  unfold loop_head.
  destruct (Z.ltb_spec 0 (len audio_data)) as [E|E]; [reflexivity|].
  exfalso. apply HW, len_nil_iff. pose proof (len_nonneg audio_data). lia.
Qed.

(** While the window does not reach the end, the loop goes on for ever. *)
Lemma drain_stuck :
  0 < len audio_data -> L < len audio_data ->
  forall (fuel : nat) (fr : frame),
    f_chunk_length_samples fr = L ->
    f_overlap_samples fr = Ov ->
    f_start fr <= 0 ->
    f_end fr = f_start fr + L ->
    drain fuel self audio_data (Suspended fr) = OutOfFuel.
Proof.
  intros Hpos Hlong fuel.
  induction fuel as [|k IH]; intros fr HfL HfO Hst Hend; [reflexivity|].
  cbn [drain next].
  destruct (Z.eqb_spec (f_end fr) (len audio_data)) as [E|E]; [lia|].
  rewrite HfL, HfO. unfold loop_head.
  destruct (Z.ltb_spec (f_start fr + (L - Ov)) (len audio_data)) as [E2|E2]; [|lia].
  rewrite IH; [reflexivity | reflexivity | reflexivity | cbn; lia | cbn; lia].
Qed.

Lemma chunk_audio_list_stuck :
  audio_data <> [] -> L < len audio_data ->
  forall fuel : nat, chunk_audio_list fuel self audio_data = OutOfFuel.
Proof.
  intros HW Hlong [|k]; [reflexivity|].
  unfold chunk_audio_list. cbn [drain].
  rewrite (first_chunk_emitted HW).
  assert (Hpos : 0 < len audio_data).
  { pose proof (len_nonneg audio_data).
    destruct (Z.eq_dec (len audio_data) 0) as [E|E]; [|lia].
    now apply len_nil_iff in E. }
  rewrite drain_stuck; [reflexivity | assumption | assumption | reflexivity
                        | reflexivity | cbn; lia | cbn; lia].
Qed.

Lemma chunk_audio_list_single :
  audio_data <> [] -> len audio_data <= L ->
  forall fuel : nat,
    chunk_audio_list (S (S fuel)) self audio_data =
    Returns [ {| c_start := 0; c_end := len audio_data; c_data := audio_data |} ].
Proof.
  intros HW Hshort fuel.
  unfold chunk_audio_list. cbn [drain].
  rewrite (first_chunk_emitted HW).
  replace (Z.min (0 + L) (len audio_data)) with (len audio_data) by lia.
  cbn [next f_end]. rewrite Z.eqb_refl, py_slice_all. reflexivity.
Qed.

End NoStride.

(* ===================================================================== *)
(** ** Windowing: the properties of [chunk_audio] *)

(** C1.  For every waveform and every configuration with
    [overlap_samples >= 0] and a stride [chunk_length_samples -
    overlap_samples >= 1], the generator comes to its end and its chunks
    cover the waveform once, overlaps apart: the first chunk starts at 0,
    every later chunk starts at the end of the chunk before it minus
    [overlap_samples], the last chunk ends at [len(W)], every chunk is the
    slice of its window inside the waveform, every sample lies in a window,
    and the chunks without their overlaps put the waveform together again.
    In particular 70 samples with windows of 30 and an overlap of 10 give
    the windows [0:30], [20:50], [40:70]. *)
Theorem chunk_audio_covers_waveform :
  (forall (sample : Type) (self : AudioTranscriber)
          (audio_data : waveform sample) (L Ov : Z) (fuel : nat),
      chunk_length_samples self = inr L ->
      overlap_samples self = inr Ov ->
      0 <= Ov ->
      1 <= L - Ov ->
      (List.length audio_data < fuel)%nat ->
      exists cs,
        chunk_audio_list fuel self audio_data = Returns cs /\
        (forall c, nth_error cs 0 = Some c -> c_start c = 0) /\
        (forall (i : nat) c c',
            nth_error cs i = Some c -> nth_error cs (S i) = Some c' ->
            c_end c - Ov = c_start c') /\
        last (map c_end cs) 0 = len audio_data /\
        Forall (fun c => 0 <= c_start c /\ c_start c < c_end c /\
                         c_end c <= len audio_data /\
                         c_data c = py_slice audio_data (c_start c) (c_end c))
               cs /\
        (forall i, 0 <= i < len audio_data ->
                   exists c, In c cs /\ c_start c <= i < c_end c) /\
        stitch Ov cs = audio_data)
  /\
  (exists cs,
      chunk_audio_list 71%nat scenario_transcriber scenario_waveform = Returns cs /\
      map (fun c => (c_start c, c_end c)) cs = [(0, 30); (20, 50); (40, 70)]).
Proof.
  split.
  - intros sample self audio_data L Ov fuel HL HO HOv Hs Hfuel.
    destruct (chunk_audio_list_shape self audio_data L Ov HL HO Hs fuel Hfuel)
      as (cs & Hrun & Hok & _).
    exists cs. split; [exact Hrun|].
    split; [|split; [|split; [|split; [|split]]]].
    + intros c Hc. destruct cs as [|c0 cs]; [discriminate|].
      injection Hc as <-. apply Hok.
    + intros i c c' Hi Hi'.
      destruct (chunks_ok_chain _ _ _ _ Hok i c c' Hi Hi'). lia.
    + eapply chunks_ok_last; eassumption.
    + pose proof (chunks_ok_inside _ _ _ Hs _ Hok) as Hin.
      rewrite Forall_forall in *. intros c Hc.
      destruct (Hin c Hc) as (H0 & Hlt & Hend & Hdata).
      repeat split; try assumption; lia.
    + eapply chunks_ok_cover; eassumption.
    + eapply chunks_ok_stitch; eassumption.
  - eexists. split; [vm_compute; reflexivity | reflexivity].
Qed.

(** The 70-sample scenario is such a configuration and waveform. *)
Lemma chunk_audio_covers_waveform_witness :
  chunk_length_samples scenario_transcriber = inr 30 /\
  overlap_samples scenario_transcriber = inr 10 /\
  exists cs,
    chunk_audio_list 71%nat scenario_transcriber scenario_waveform = Returns cs /\
    (forall c, nth_error cs 0 = Some c -> c_start c = 0) /\
    (forall (i : nat) c c',
        nth_error cs i = Some c -> nth_error cs (S i) = Some c' ->
        c_end c - 10 = c_start c') /\
    last (map c_end cs) 0 = len scenario_waveform /\
    Forall (fun c => 0 <= c_start c /\ c_start c < c_end c /\
                     c_end c <= len scenario_waveform /\
                     c_data c = py_slice scenario_waveform (c_start c) (c_end c))
           cs /\
    (forall i, 0 <= i < len scenario_waveform ->
               exists c, In c cs /\ c_start c <= i < c_end c) /\
    stitch 10 cs = scenario_waveform.
Proof.
  split; [vm_compute; reflexivity|].
  split; [vm_compute; reflexivity|].
  apply (proj1 chunk_audio_covers_waveform nat scenario_transcriber
               scenario_waveform 30 10 71%nat).
  - vm_compute; reflexivity.
  - vm_compute; reflexivity.
  - lia.
  - lia.
  - vm_compute; lia.
Defined.

(** C2.  For every waveform and every configuration with
    [overlap_samples >= 0] and stride [>= 1], the generator yields no chunk
    for an empty waveform (and raises nothing), one chunk when
    [0 < len(W) <= chunk_length_samples], and otherwise
    [ceil((len(W) - overlap_samples) / stride)] chunks. *)
Theorem chunk_audio_count :
  forall (sample : Type) (self : AudioTranscriber)
         (audio_data : waveform sample) (L Ov : Z) (fuel : nat),
    chunk_length_samples self = inr L ->
    overlap_samples self = inr Ov ->
    0 <= Ov ->
    1 <= L - Ov ->
    (List.length audio_data < fuel)%nat ->
    exists cs,
      chunk_audio_list fuel self audio_data = Returns cs /\
      (len audio_data = 0 -> List.length cs = 0%nat) /\
      (0 < len audio_data <= L -> List.length cs = 1%nat) /\
      (L < len audio_data ->
       Z.of_nat (List.length cs) = ceil_div (len audio_data - Ov) (L - Ov)).
Proof.
  intros sample self audio_data L Ov fuel HL HO HOv Hs Hfuel.
  destruct (chunk_audio_list_shape self audio_data L Ov HL HO Hs fuel Hfuel)
    as (cs & Hrun & Hok & _).
  exists cs. split; [exact Hrun|].
  eapply chunks_ok_count; eassumption.
Qed.

(** The count on the 70-sample scenario: 3 chunks. *)
Lemma chunk_audio_count_witness :
  exists cs,
    chunk_audio_list 71%nat scenario_transcriber scenario_waveform = Returns cs /\
    (len scenario_waveform = 0 -> List.length cs = 0%nat) /\
    (0 < len scenario_waveform <= 30 -> List.length cs = 1%nat) /\
    (30 < len scenario_waveform ->
     Z.of_nat (List.length cs) = ceil_div (len scenario_waveform - 10) (30 - 10)).
Proof.
  apply (chunk_audio_count nat scenario_transcriber scenario_waveform 30 10 71%nat).
  - vm_compute; reflexivity.
  - vm_compute; reflexivity.
  - lia.
  - lia.
  - vm_compute; lia.
Defined.

(** C10, as the code has it.  For every waveform and every configuration
    with a window of at least one sample and a stride of at least one
    sample (so for every configuration with [overlap_samples >= 0] and
    stride [>= 1]), every chunk yielded by [chunk_audio] has between 1 and
    [chunk_length_samples] samples, and every chunk but the last has
    [chunk_length_samples] samples. *)
Theorem chunk_audio_chunk_sizes :
  forall (sample : Type) (self : AudioTranscriber)
         (audio_data : waveform sample) (L Ov : Z) (fuel : nat),
    chunk_length_samples self = inr L ->
    overlap_samples self = inr Ov ->
    1 <= L ->
    1 <= L - Ov ->
    (List.length audio_data < fuel)%nat ->
    exists cs,
      chunk_audio_list fuel self audio_data = Returns cs /\
      Forall (fun c => 1 <= len (c_data c) <= L) cs /\
      (forall (i : nat) c,
          nth_error cs i = Some c -> (S i < List.length cs)%nat ->
          len (c_data c) = L).
Proof.
  intros sample self audio_data L Ov fuel HL HO HL1 Hs Hfuel.
  destruct (chunk_audio_list_shape self audio_data L Ov HL HO Hs fuel Hfuel)
    as (cs & Hrun & Hok & _).
  exists cs. split; [exact Hrun|].
  pose proof (chunks_ok_inside _ _ _ Hs _ Hok) as Hin.
  rewrite Forall_forall in Hin. split.
  - rewrite Forall_forall. intros c Hc.
    destruct (Hin c Hc) as (H0 & Hwf).
    apply (wf_chunk_len _ _ _ HL1 H0 Hwf).
  - intros i c Hi Hlt.
    destruct (nth_error cs (S i)) as [c'|] eqn:Hi';
      [|apply nth_error_None in Hi'; lia].
    destruct (chunks_ok_chain _ _ _ _ Hok i c c' Hi Hi') as (Hfull & _).
    destruct (Hin c (nth_error_In _ _ Hi)) as (H0 & Hwf).
    destruct (wf_chunk_len _ _ _ HL1 H0 Hwf) as (Hlen & _). lia.
Qed.

(** The sizes on the 70-sample scenario. *)
Lemma chunk_audio_chunk_sizes_witness :
  exists cs,
    chunk_audio_list 71%nat scenario_transcriber scenario_waveform = Returns cs /\
    Forall (fun c => 1 <= len (c_data c) <= 30) cs /\
    (forall (i : nat) c,
        nth_error cs i = Some c -> (S i < List.length cs)%nat ->
        len (c_data c) = 30).
Proof.
  apply (chunk_audio_chunk_sizes nat scenario_transcriber scenario_waveform
                                 30 10 71%nat).
  - vm_compute; reflexivity.
  - vm_compute; reflexivity.
  - lia.
  - lia.
  - vm_compute; lia.
Defined.

(** C10 as it is worded asks a stride of at least one sample and nothing of
    the window: with a window of 0 samples and an overlap of -16000 samples
    the stride is 16000, and the one chunk yielded is empty. *)
Lemma empty_window_yields_empty_chunk :
  chunk_length_samples empty_window_transcriber = inr 0 /\
  overlap_samples empty_window_transcriber = inr (-16000) /\
  1 <= 0 - (-16000) /\
  exists c,
    chunk_audio_list 2%nat empty_window_transcriber [7%nat] = Returns [c] /\
    c_start c = 0 /\ c_end c = 0 /\ len (c_data c) = 0.
Proof.
  repeat split; try reflexivity; try lia.
  eexists. repeat split.
Qed.

(** C8, as the code has it.  For every waveform and every configuration
    with a stride of at least one sample, [chunk_audio] yields a finite
    sequence: after at most [len(W) + 1] calls of [next] it is exhausted,
    having yielded at most [len(W)] chunks; when moreover
    [overlap_samples >= 0], the chunk it stops after is the one whose end
    is [len(W)]. *)
Theorem chunk_audio_finite :
  forall (sample : Type) (self : AudioTranscriber)
         (audio_data : waveform sample) (L Ov : Z) (fuel : nat),
    chunk_length_samples self = inr L ->
    overlap_samples self = inr Ov ->
    1 <= L - Ov ->
    (List.length audio_data < fuel)%nat ->
    terminates self audio_data /\
    exists cs,
      chunk_audio_list fuel self audio_data = Returns cs /\
      (List.length cs <= List.length audio_data)%nat /\
      (0 <= Ov -> last (map c_end cs) 0 = len audio_data).
Proof.
  intros sample self audio_data L Ov fuel HL HO Hs Hfuel.
  destruct (chunk_audio_list_shape self audio_data L Ov HL HO Hs fuel Hfuel)
    as (cs & Hrun & Hok & Hlen).
  split; [exists fuel, cs; exact Hrun|].
  exists cs. repeat split; try assumption.
  intros HOv. eapply chunks_ok_last; eassumption.
Qed.

(** The 70-sample scenario comes to its end. *)
Lemma chunk_audio_finite_witness :
  terminates scenario_transcriber scenario_waveform /\
  exists cs,
    chunk_audio_list 71%nat scenario_transcriber scenario_waveform = Returns cs /\
    (List.length cs <= List.length scenario_waveform)%nat /\
    (0 <= 10 -> last (map c_end cs) 0 = len scenario_waveform).
Proof.
  apply (chunk_audio_finite nat scenario_transcriber scenario_waveform
                            30 10 71%nat).
  - vm_compute; reflexivity.
  - vm_compute; reflexivity.
  - lia.
  - vm_compute; lia.
Defined.

(** C8 as it is worded speaks of every waveform: with a window and an
    overlap of one second each (stride 0) and a waveform of 16001 samples
    the generator yields [audio_data[0:16000]] again and again and never
    comes to its end. *)
Lemma zero_stride_never_terminates :
  chunk_length_samples stuck_transcriber = inr 16000 /\
  overlap_samples stuck_transcriber = inr 16000 /\
  len stuck_waveform = 16001 /\
  ~ terminates stuck_transcriber stuck_waveform.
Proof.
  assert (Hlen : len stuck_waveform = 16001).
  { unfold len, stuck_waveform. rewrite repeat_length. lia. }
  repeat split; try assumption.
  intros (fuel & cs & Hrun).
  rewrite (chunk_audio_list_stuck stuck_transcriber stuck_waveform 16000 16000)
    in Hrun; try reflexivity; try lia.
  - discriminate.
  - intros E. rewrite E in Hlen. discriminate.
Qed.

(** C4, as the code has it.  Nothing checks the stride, neither
    [__init__], which only stores its arguments, nor [chunk_audio]: with a
    stride below one sample no exception is ever raised; on a waveform that
    is not empty the first [next] yields [audio_data[0:min(L, len)]]; the
    generator stops after that chunk when the waveform is no longer than
    the window, and otherwise it goes on yielding chunks for ever. *)
Theorem invalid_stride_not_rejected :
  forall (sample : Type) (self : AudioTranscriber)
         (audio_data : waveform sample) (L Ov : Z),
    chunk_length_samples self = inr L ->
    overlap_samples self = inr Ov ->
    L - Ov < 1 ->
    (forall (fuel : nat) (e : exn),
        chunk_audio_list fuel self audio_data <> Raises e) /\
    (audio_data <> [] ->
     exists c g,
       next self audio_data (chunk_audio self audio_data) = (inr (Some c), g) /\
       c_start c = 0 /\ c_end c = Z.min L (len audio_data) /\
       c_data c = py_slice audio_data 0 (Z.min L (len audio_data))) /\
    (audio_data <> [] -> len audio_data <= L ->
     forall fuel : nat,
       chunk_audio_list (S (S fuel)) self audio_data =
       Returns [ {| c_start := 0; c_end := len audio_data;
                    c_data := audio_data |} ]) /\
    (audio_data <> [] -> L < len audio_data ->
     forall fuel : nat, chunk_audio_list fuel self audio_data = OutOfFuel).
Proof.
  intros sample self audio_data L Ov HL HO Hs.
  assert (Hone : audio_data <> [] -> len audio_data <= L ->
                 forall fuel : nat,
                   chunk_audio_list (S (S fuel)) self audio_data =
                   Returns [ {| c_start := 0; c_end := len audio_data;
                                c_data := audio_data |} ])
    by (intros; eapply chunk_audio_list_single; eassumption).
  assert (Hstuck : audio_data <> [] -> L < len audio_data ->
                   forall fuel : nat,
                     chunk_audio_list fuel self audio_data = OutOfFuel)
    by (intros; eapply chunk_audio_list_stuck; eassumption).
  repeat split; try assumption.
  - intros fuel e.
    destruct audio_data as [|x w] eqn:EW.
    + destruct fuel as [|k]; [discriminate|].
      unfold chunk_audio_list. cbn [drain].
      rewrite (next_created _ _ _ _ HL HO). discriminate.
    + assert (HW : x :: w <> []) by discriminate.
      destruct (Z_lt_le_dec L (len (x :: w))) as [Hlong|Hshort].
      * rewrite (Hstuck HW Hlong). discriminate.
      * destruct fuel as [|[|k]].
        -- discriminate.
        -- unfold chunk_audio_list. cbn [drain].
           rewrite (first_chunk_emitted _ _ _ _ HL HO HW). discriminate.
        -- rewrite (Hone HW Hshort). discriminate.
  - intros HW. do 2 eexists.
    rewrite (first_chunk_emitted _ _ _ _ HL HO HW).
    repeat split.
Qed.

(** A window and an overlap of two seconds each, on one sample. *)
Lemma invalid_stride_not_rejected_witness :
  (forall (fuel : nat) (e : exn),
      chunk_audio_list fuel zero_stride_transcriber [7%nat] <> Raises e) /\
  ([7%nat] <> [] ->
   exists c g,
     next zero_stride_transcriber [7%nat]
          (chunk_audio zero_stride_transcriber [7%nat]) = (inr (Some c), g) /\
     c_start c = 0 /\ c_end c = Z.min 32000 (len [7%nat]) /\
     c_data c = py_slice [7%nat] 0 (Z.min 32000 (len [7%nat]))) /\
  ([7%nat] <> [] -> len [7%nat] <= 32000 ->
   forall fuel : nat,
     chunk_audio_list (S (S fuel)) zero_stride_transcriber [7%nat] =
     Returns [ {| c_start := 0; c_end := len [7%nat]; c_data := [7%nat] |} ]) /\
  ([7%nat] <> [] -> 32000 < len [7%nat] ->
   forall fuel : nat,
     chunk_audio_list fuel zero_stride_transcriber [7%nat] = OutOfFuel).
Proof.
  apply (invalid_stride_not_rejected nat zero_stride_transcriber [7%nat]
                                     32000 32000).
  - reflexivity.
  - reflexivity.
  - lia.
Defined.

(** C4 as it is worded asks a [ConfigurationError]: with
    [chunk_length_seconds = overlap_seconds = 2] the transcriber is built,
    and [chunk_audio] yields a chunk and returns. *)
Lemma zero_stride_emits_chunk :
  chunk_length_samples zero_stride_transcriber = inr 32000 /\
  overlap_samples zero_stride_transcriber = inr 32000 /\
  32000 - 32000 < 1 /\
  chunk_audio_list 2%nat zero_stride_transcriber [7%nat] =
  Returns [ {| c_start := 0; c_end := 1; c_data := [7%nat] |} ].
Proof. repeat split; try reflexivity; lia. Qed.

(* ===================================================================== *)
(** ** Window sizes: [int] and [round] *)

Lemma int_round_whole (x : pynum) :
  py_is_integer x = true -> py_int x = py_round x.
Proof.
  destruct x as [z|f]; cbn; [reflexivity|].
  destruct (Prim2SF f) as [s|s| |s m e]; try reflexivity; try discriminate.
  intros H. f_equal. unfold trunc_sf, round_sf.
  destruct (Z.leb_spec 0 e) as [He|He]; [reflexivity|].
  cbn in H. apply Z.eqb_eq in H. cbv zeta. rewrite H.
  assert (Hd : 0 < 2 ^ (- e)) by (apply Z.pow_pos_nonneg; lia).
  destruct (Z.compare_spec (2 * 0) (2 ^ (- e))) as [E|E|E];
    [lia | reflexivity | lia].
Qed.

Lemma int_round_near (x : pynum) (t r : Z) :
  py_int x = inr t -> py_round x = inr r -> r = t \/ r = t + Z.sgn r.
Proof.
  destruct x as [z|f]; cbn.
  - intros [= <-] [= <-]. now left.
  - destruct (Prim2SF f) as [s|s| |s m e]; try discriminate.
    + intros [= <-] [= <-]. now left.
    + intros [= <-] [= <-]. unfold trunc_sf, round_sf.
      destruct (Z.leb_spec 0 e) as [He|He]; [now left|].
      cbv zeta.
      assert (Hd : 0 < 2 ^ (- e)) by (apply Z.pow_pos_nonneg; lia).
      assert (Hq : 0 <= Z.pos m / 2 ^ (- e)) by (apply Z.div_pos; lia).
      destruct (2 * (Z.pos m mod 2 ^ (- e)) ?= 2 ^ (- e));
        [destruct (Z.even (Z.pos m / 2 ^ (- e)))| |];
        destruct s; lia.
Qed.

(** C7, as the code has it.  [chunk_audio] sizes its windows with [int],
    which drops the fraction: [chunk_length_samples] is
    [int(chunk_length_seconds * sample_rate)] and [overlap_samples] is
    [int(overlap_seconds * sample_rate)].  Each is the rounded value or the
    integer next to it toward zero, and it is the rounded value whenever
    the product is a whole number, as it is for every number of seconds
    given as an [int]. *)
Theorem window_sizes_truncate :
  forall (self : AudioTranscriber) (L Ov RL ROv : Z),
    chunk_length_samples self = inr L ->
    overlap_samples self = inr Ov ->
    spec_chunk_length_samples self = inr RL ->
    spec_overlap_samples self = inr ROv ->
    (RL = L \/ RL = L + Z.sgn RL) /\
    (ROv = Ov \/ ROv = Ov + Z.sgn ROv) /\
    (py_is_integer (times_rate (chunk_length_seconds self) (sample_rate self))
     = true -> RL = L) /\
    (py_is_integer (times_rate (overlap_seconds self) (sample_rate self))
     = true -> ROv = Ov) /\
    (forall z, chunk_length_seconds self = PyInt z -> L = z * 16000 /\ RL = L) /\
    (forall z, overlap_seconds self = PyInt z -> Ov = z * 16000 /\ ROv = Ov).
Proof.
  intros self L Ov RL ROv.
  unfold chunk_length_samples, spec_chunk_length_samples,
    overlap_samples, spec_overlap_samples.
  intros HL HO HRL HRO.
  split; [exact (int_round_near _ _ _ HL HRL)|].
  split; [exact (int_round_near _ _ _ HO HRO)|].
  split; [|split; [|split]].
  - intros Hw. rewrite (int_round_whole _ Hw) in HL. congruence.
  - intros Hw. rewrite (int_round_whole _ Hw) in HO. congruence.
  - intros z Hz. rewrite Hz in HL, HRL. cbn in HL, HRL.
    unfold sample_rate, SAMPLE_RATE in *. split; congruence.
  - intros z Hz. rewrite Hz in HO, HRO. cbn in HO, HRO.
    unfold sample_rate, SAMPLE_RATE in *. split; congruence.
Qed.

(** 3/512 s: the code computes 93 where [round] gives 94. *)
Lemma window_sizes_truncate_witness :
  chunk_length_samples fractional_transcriber = inr 93 /\
  overlap_samples fractional_transcriber = inr 0 /\
  spec_chunk_length_samples fractional_transcriber = inr 94 /\
  spec_overlap_samples fractional_transcriber = inr 0 /\
  (94 = 93 \/ 94 = 93 + Z.sgn 94) /\
  (0 = 0 \/ 0 = 0 + Z.sgn 0) /\
  (py_is_integer (times_rate (chunk_length_seconds fractional_transcriber)
                             (sample_rate fractional_transcriber))
   = true -> 94 = 93) /\
  (py_is_integer (times_rate (overlap_seconds fractional_transcriber)
                             (sample_rate fractional_transcriber))
   = true -> 0 = 0) /\
  (forall z, chunk_length_seconds fractional_transcriber = PyInt z ->
             93 = z * 16000 /\ 94 = 93) /\
  (forall z, overlap_seconds fractional_transcriber = PyInt z ->
             0 = z * 16000 /\ 0 = 0).
Proof.
  split; [vm_compute; reflexivity|]. split; [reflexivity|].
  split; [vm_compute; reflexivity|]. split; [reflexivity|].
  apply (window_sizes_truncate fractional_transcriber 93 0 94 0).
  - vm_compute; reflexivity.
  - reflexivity.
  - vm_compute; reflexivity.
  - reflexivity.
Defined.

(** C7 as it is worded asks the nearest integer: 3/512 s at 16 kHz is
    93.75 samples, [round] gives 94 and the code computes 93. *)
Lemma fractional_window_is_truncated :
  chunk_length_samples fractional_transcriber = inr 93 /\
  spec_chunk_length_samples fractional_transcriber = inr 94.
Proof. split; vm_compute; reflexivity. Qed.

(* ===================================================================== *)
(** ** Batches *)

Lemma len_app_one {X : Type} (buf : list X) (c : X) :
  len (buf ++ [c]) = len buf + 1.
Proof. unfold len. rewrite length_app. cbn. lia. Qed.

Lemma len_cons {X : Type} (c : X) (l : list X) : len (c :: l) = len l + 1.
Proof. unfold len. cbn [List.length]. lia. Qed.

Section BatchFacts.

Context {X : Type}.
Variable B : Z.

Lemma batches_concat (chunks : list X) : forall buf,
  List.concat (batches B buf chunks) = buf ++ chunks.
Proof.
  induction chunks as [|c cs IH]; intros buf; cbn [batches].
  - destruct buf; cbn; now rewrite ?app_nil_r.
  - destruct (len (buf ++ [c]) =? B); cbn [List.concat]; rewrite IH;
      now rewrite <- app_assoc.
Qed.

Hypothesis HB : 1 <= B.

(** Every batch but the last one is full. *)
Lemma batches_full (chunks : list X) : forall buf,
  len buf < B ->
  forall (i : nat) b,
    nth_error (batches B buf chunks) i = Some b ->
    (S i < List.length (batches B buf chunks))%nat ->
    len b = B.
Proof.
  induction chunks as [|c cs IH]; intros buf Hbuf i b Hi Hlt; cbn [batches] in *.
  - destruct buf; cbn in Hlt; lia.
  - destruct (Z.eqb_spec (len (buf ++ [c])) B) as [E|E].
    + destruct i as [|i].
      * injection Hi as <-. exact E.
      * cbn in Hi, Hlt. apply (IH [] ltac:(cbn; lia) i b Hi). lia.
    + rewrite len_app_one in E.
      apply (IH (buf ++ [c]) ltac:(rewrite len_app_one; lia) i b Hi Hlt).
Qed.

(** The number of batches. *)
Lemma batches_count (chunks : list X) : forall buf,
  len buf < B ->
  len (batches B buf chunks) = ceil_div (len buf + len chunks) B.
Proof.
  induction chunks as [|c cs IH]; intros buf Hbuf; cbn [batches].
  - destruct buf as [|x buf].
    + reflexivity.
    + change (len [x :: buf]) with 1.
      replace (len (x :: buf) + len (@nil X)) with (len (x :: buf))
        by (cbn; lia).
      rewrite ceil_div_within; [reflexivity|].
      pose proof (len_nonneg buf). rewrite len_cons in Hbuf |- *. lia.
  - rewrite len_cons.
    destruct (Z.eqb_spec (len (buf ++ [c])) B) as [E|E];
      rewrite len_app_one in E; cbv iota.
    + rewrite len_cons, IH by (cbn; lia).
      rewrite <- (ceil_div_step (len buf + (len cs + 1))) by lia.
      change (len (@nil X)) with 0.
      replace (len buf + (len cs + 1) - B) with (0 + len cs) by lia. lia.
    + rewrite IH by (rewrite len_app_one; pose proof (len_nonneg buf); lia).
      rewrite len_app_one. f_equal. lia.
Qed.

(** The size of the last batch ([d] when there is no batch). *)
Lemma batches_last (chunks : list X) : forall buf d,
  len buf < B ->
  last (map len (batches B buf chunks)) d =
  let N := len buf + len chunks in
  if N =? 0 then d else if N mod B =? 0 then B else N mod B.
Proof.
  induction chunks as [|c cs IH]; intros buf d Hbuf; cbn [batches]; cbv zeta.
  - destruct buf as [|x buf]; [reflexivity|].
    pose proof (len_nonneg buf) as Hn. cbn [map last].
    rewrite !len_cons. rewrite len_cons in Hbuf.
    change (len (@nil X)) with 0. rewrite Z.add_0_r.
    destruct (Z.eqb_spec (len buf + 1) 0) as [E|E]; [lia|].
    rewrite Z.mod_small by lia.
    destruct (Z.eqb_spec (len buf + 1) 0); [lia | reflexivity].
  - pose proof (len_nonneg buf) as Hn. pose proof (len_nonneg cs) as Hc.
    rewrite len_cons.
    destruct (Z.eqb_spec (len buf + (len cs + 1)) 0) as [E0|E0]; [lia|].
    destruct (Z.eqb_spec (len (buf ++ [c])) B) as [E|E];
      rewrite len_app_one in E.
    + cbn [map]. rewrite last_cons_default, IH by (cbn; lia).
      cbv zeta. change (len (@nil X)) with 0. rewrite Z.add_0_l.
      rewrite len_app_one.
      replace (len buf + (len cs + 1)) with (len cs + 1 * B) by lia.
      rewrite Z.mod_add by lia.
      destruct (Z.eqb_spec (len cs) 0) as [Ec|Ec].
      * rewrite Ec. rewrite Z.mod_0_l by lia. rewrite E. reflexivity.
      * reflexivity.
    + rewrite IH by (rewrite len_app_one; lia).
      cbv zeta. rewrite len_app_one.
      replace (len buf + 1 + len cs) with (len buf + (len cs + 1)) by lia.
      destruct (Z.eqb_spec (len buf + (len cs + 1)) 0); [lia | reflexivity].
Qed.

End BatchFacts.

(* ===================================================================== *)
(** ** The run of the driver *)

Section DriverFacts.

Context {sample : Type}.
Variable decoder : string -> exn + waveform sample.
Variable pipe : list (list sample) -> exn + list string.

Local Abbreviation M' := (M sample).

Lemma infer_calls_app (tr1 tr2 : list (event sample)) :
  infer_calls (tr1 ++ tr2) = infer_calls tr1 ++ infer_calls tr2.
Proof.
  induction tr1 as [|ev tr1 IH]; [reflexivity|].
  destruct ev; cbn; now rewrite IH.
Qed.

Lemma bind_ret {A C : Type} (a : A) (k : A -> M' C) tr :
  bind (ret a) k tr = k a tr.
Proof. reflexivity. Qed.

Lemma bind_bind {A C D : Type} (c : M' A) (k : A -> M' C) (h : C -> M' D) tr :
  bind (bind c k) h tr = bind c (fun a => bind (k a) h) tr.
Proof. unfold bind. destruct (c tr) as [[a|e|] tr']; reflexivity. Qed.

Lemma bind_empty_cache {C : Type} (k : unit -> M' C) tr :
  bind empty_cache k tr = k tt (tr ++ [EmptyCache]).
Proof. reflexivity. Qed.

Lemma bind_transcribe_batch_ok {C : Type} self b r (k : list string -> M' C) tr :
  pipe b = inr r ->
  bind (transcribe_batch pipe self b) k tr = k r (tr ++ [Infer b]).
Proof.
  intros H. unfold transcribe_batch, log_and_reraise, bind, emit. cbn.
  rewrite H. reflexivity.
Qed.

Lemma bind_transcribe_batch_err {C : Type} self b e (k : list string -> M' C) tr :
  pipe b = inl e ->
  bind (transcribe_batch pipe self b) k tr = (Raises e, tr ++ [Infer b]).
Proof.
  intros H. unfold transcribe_batch, log_and_reraise, bind, emit. cbn.
  rewrite H. reflexivity.
Qed.

Lemma bind_load_audio_ok {C : Type} self file W (k : waveform sample -> M' C) tr :
  decoder file = inr W ->
  bind (load_audio decoder self file) k tr = k W (tr ++ [Load file]).
Proof.
  intros H. unfold load_audio, log_and_reraise, bind, emit. cbn.
  rewrite H. reflexivity.
Qed.

Lemma bind_ext {A C : Type} (c c' : M' A) (k : A -> M' C) tr :
  c tr = c' tr -> bind c k tr = bind c' k tr.
Proof. unfold bind. now intros ->. Qed.

(** Once the generator is known to yield [cs] and stop within the fuel,
    the loop over the generator is the loop over [cs]. *)
Lemma for_chunks_for_list self audio_data : forall fuel g cs,
  drain fuel self audio_data g = Returns cs ->
  forall b a tr,
    for_chunks pipe fuel self audio_data g b a tr =
    for_list pipe self (map c_data cs) b a tr.
Proof.
  induction fuel as [|k IH]; intros g cs Hd b a tr; [discriminate|].
  cbn [drain] in Hd. cbn [for_chunks].
  destruct (next self audio_data g) as [[e|[c|]] g'].
  - discriminate.
  - destruct (drain k self audio_data g') as [cs'|e|] eqn:Hd'; try discriminate.
    injection Hd as <-. cbn [map for_list].
    destruct (len (b ++ [c_data c]) =? batch_size self).
    + unfold bind.
      destruct (transcribe_batch pipe self (b ++ [c_data c]) tr)
        as [[ts|e|] tr1]; try reflexivity.
      destruct (empty_cache tr1) as [[[]|e|] tr2]; try reflexivity.
      apply IH. exact Hd'.
    + apply IH. exact Hd'.
  - injection Hd as <-. reflexivity.
Qed.

(** The loop and what follows it, when the pipeline answers [res b] on
    every batch [b] it is given. *)
Lemma for_list_run self (res : list (list sample) -> list string) :
  forall cs buf all tr,
    (forall b, In b (batches (batch_size self) buf cs) -> pipe b = inr (res b)) ->
    exists tr',
      bind (for_list pipe self cs buf all) (after_loop pipe self) tr =
      (Returns (join " " (all ++ List.concat
                                   (map res (batches (batch_size self) buf cs)))),
       tr') /\
      infer_calls tr' = infer_calls tr ++ batches (batch_size self) buf cs.
Proof.
  induction cs as [|c cs IH]; intros buf all tr Hres.
  - cbn [for_list batches] in *. rewrite bind_ret. unfold after_loop.
    destruct buf as [|x buf].
    + rewrite bind_ret. eexists. split; [cbn; now rewrite app_nil_r|].
      now rewrite app_nil_r.
    + rewrite bind_bind.
      rewrite (bind_transcribe_batch_ok _ _ _ _ _ (Hres _ (or_introl eq_refl))).
      rewrite !bind_ret. eexists. split.
      * cbn [map List.concat]. now rewrite app_nil_r.
      * rewrite infer_calls_app. reflexivity.
  - cbn [for_list batches] in *.
    destruct (len (buf ++ [c]) =? batch_size self).
    + rewrite bind_bind.
      rewrite (bind_transcribe_batch_ok _ _ _ _ _ (Hres _ (or_introl eq_refl))).
      rewrite bind_bind, bind_empty_cache.
      destruct (IH [] (all ++ res (buf ++ [c]))
                   ((tr ++ [Infer (buf ++ [c])]) ++ [EmptyCache]))
        as (tr' & Hrun & Hcalls).
      { intros b Hb. apply Hres. now right. }
      exists tr'. split.
      * rewrite Hrun. cbn [map List.concat]. now rewrite <- app_assoc.
      * rewrite Hcalls, !infer_calls_app. cbn. now rewrite app_nil_r, <- app_assoc.
    + apply IH. exact Hres.
Qed.

(** A run of [transcribe_audio] in which the decoder, the generator and the
    pipeline all succeed. *)
Lemma transcribe_audio_run self file audio_data fuel cs
      (res : list (list sample) -> list string) :
  decoder file = inr audio_data ->
  chunk_audio_list fuel self audio_data = Returns cs ->
  (forall b, In b (batches (batch_size self) [] (map c_data cs)) ->
             pipe b = inr (res b)) ->
  forall tr,
  exists tr',
    transcribe_audio decoder pipe fuel self file tr =
    (Returns (join " " (List.concat
                          (map res (batches (batch_size self) []
                                            (map c_data cs))))),
     tr') /\
    infer_calls tr' = infer_calls tr ++ batches (batch_size self) [] (map c_data cs).
Proof.
  intros Hdec Hgen Hres tr.
  destruct (for_list_run self res (map c_data cs) [] [] (tr ++ [Load file]) Hres)
    as (tr' & Hrun & Hcalls).
  exists tr'. split.
  - unfold transcribe_audio, except_logging_error.
    assert (Hbody : transcribe_audio_body decoder pipe fuel self file tr =
                    bind (for_list pipe self (map c_data cs) [] [])
                         (after_loop pipe self) (tr ++ [Load file])).
    { unfold transcribe_audio_body.
      rewrite (bind_load_audio_ok _ _ _ _ _ Hdec). cbv zeta.
      apply bind_ext, for_chunks_for_list. exact Hgen. }
    rewrite Hbody, Hrun. reflexivity.
  - rewrite Hcalls, infer_calls_app. cbn. now rewrite app_nil_r.
Qed.

(** Whatever goes wrong inside, what leaves [transcribe_audio] is the
    [TypeError] of its own handler, or something [except Exception] does
    not catch. *)
Lemma transcribe_audio_raises fuel self file tr e :
  fst (transcribe_audio decoder pipe fuel self file tr) = Raises e ->
  e = logging_error_no_msg \/ is_exception e = false.
Proof.
  unfold transcribe_audio, except_logging_error.
  destruct (transcribe_audio_body decoder pipe fuel self file tr)
    as [[t|e'|] tr']; cbn; try discriminate.
  destruct (is_exception e') eqn:E; cbn; intros [= <-]; auto.
Qed.

Lemma transcribe_audio_load_fails fuel self file tr e :
  decoder file = inl e ->
  transcribe_audio decoder pipe fuel self file tr =
  (Raises (if is_exception e then logging_error_no_msg else e),
   tr ++ [Load file]).
Proof.
  intros H.
  unfold transcribe_audio, except_logging_error, transcribe_audio_body,
    load_audio, log_and_reraise, bind, emit. cbn. rewrite H. cbn.
  destruct (is_exception e); reflexivity.
Qed.

End DriverFacts.

(* ===================================================================== *)
(** ** Calls that do not look at the log *)

Section UniformFacts.

Context {sample : Type}.
Variable decoder : string -> exn + waveform sample.
Variable pipe : list (list sample) -> exn + list string.

Local Abbreviation M' := (M sample).

Lemma uniform_ret {A : Type} (a : A) : uniform (ret a : M' A).
Proof. exists (Returns a), []. intros tr. unfold ret. now rewrite app_nil_r. Qed.

Lemma uniform_raise {A : Type} (e : exn) : uniform (raise e : M' A).
Proof. exists (Raises e), []. intros tr. unfold raise. now rewrite app_nil_r. Qed.

Lemma uniform_out_of_fuel {A : Type} : uniform (out_of_fuel : M' A).
Proof. exists OutOfFuel, []. intros tr. unfold out_of_fuel. now rewrite app_nil_r. Qed.

Lemma uniform_emit (ev : event sample) : uniform (emit ev).
Proof. exists (Returns tt), [ev]. reflexivity. Qed.

Lemma uniform_lift {A : Type} (r : exn + A) : uniform (lift r : M' A).
Proof. destruct r; [apply uniform_raise | apply uniform_ret]. Qed.

Lemma uniform_bind {A C : Type} (c : M' A) (k : A -> M' C) :
  uniform c -> (forall a, uniform (k a)) -> uniform (bind c k).
Proof.
  intros (r & evs & Hc) Hk. destruct r as [a|e|].
  - destruct (Hk a) as (r' & evs' & Hka).
    exists r', (evs ++ evs'). intros tr.
    unfold bind. now rewrite Hc, Hka, app_assoc.
  - exists (Raises e), evs. intros tr. unfold bind. now rewrite Hc.
  - exists OutOfFuel, evs. intros tr. unfold bind. now rewrite Hc.
Qed.

Lemma uniform_except {A : Type} (c : M' A) :
  uniform c -> uniform (except_logging_error c).
Proof.
  intros (r & evs & Hc). destruct r as [a|e|].
  - exists (Returns a), evs. intros tr. unfold except_logging_error. now rewrite Hc.
  - exists (Raises (if is_exception e then logging_error_no_msg else e)), evs.
    intros tr. unfold except_logging_error. rewrite Hc.
    destruct (is_exception e); reflexivity.
  - exists OutOfFuel, evs. intros tr. unfold except_logging_error. now rewrite Hc.
Qed.

Lemma uniform_transcribe_batch self b : uniform (transcribe_batch pipe self b).
Proof.
  unfold transcribe_batch, log_and_reraise.
  apply uniform_bind; [apply uniform_emit | intros _; apply uniform_lift].
Qed.

Lemma uniform_load_audio self file : uniform (load_audio decoder self file).
Proof.
  unfold load_audio, log_and_reraise.
  apply uniform_bind; [apply uniform_emit | intros _; apply uniform_lift].
Qed.

Lemma uniform_for_chunks self audio_data : forall fuel g b a,
  uniform (for_chunks pipe fuel self audio_data g b a).
Proof.
  induction fuel as [|k IH]; intros g b a; cbn [for_chunks].
  - apply uniform_out_of_fuel.
  - destruct (next self audio_data g) as [[e|[c|]] g'].
    + apply uniform_raise.
    + destruct (len (b ++ [c_data c]) =? batch_size self); [|apply IH].
      apply uniform_bind; [apply uniform_transcribe_batch|].
      intros ts. apply uniform_bind; [apply uniform_emit|].
      intros _. apply IH.
    + apply uniform_ret.
Qed.

Lemma uniform_after_loop self st : uniform (after_loop pipe self st).
Proof.
  destruct st as [b a]. unfold after_loop.
  apply uniform_bind; [|intros; apply uniform_ret].
  destruct b; [apply uniform_ret|].
  apply uniform_bind; [apply uniform_transcribe_batch | intros; apply uniform_ret].
Qed.

(** The outcome of [transcribe_audio] and the calls it makes are the same
    whatever was called before. *)
Lemma uniform_transcribe_audio fuel self file :
  uniform (transcribe_audio decoder pipe fuel self file).
Proof.
  unfold transcribe_audio, transcribe_audio_body.
  apply uniform_except, uniform_bind; [apply uniform_load_audio|].
  intros W. cbv zeta.
  apply uniform_bind; [apply uniform_for_chunks | apply uniform_after_loop].
Qed.

End UniformFacts.

(* ===================================================================== *)
(** ** Batching, joining and errors: the properties of [transcribe_audio] *)

(** C5.  For every audio file whose waveform yields [N] chunks and every
    batch size [B >= 1], with a pipeline that does not fail,
    [transcribe_audio] returns after [ceil(N / B)] calls of
    [transcribe_batch]; the calls taken together are the chunks in the
    order they were yielded, each chunk once; every call but the last
    receives [B] chunks, and the last receives [N mod B] chunks, or [B]
    when [N mod B = 0]. *)
Theorem transcribe_audio_batches :
  forall (sample : Type)
         (decoder : string -> exn + waveform sample)
         (pipe : list (list sample) -> exn + list string)
         (self : AudioTranscriber) (audio_file : string)
         (audio_data : waveform sample) (fuel : nat)
         (cs : list (Chunk sample)),
    1 <= batch_size self ->
    decoder audio_file = inr audio_data ->
    chunk_audio_list fuel self audio_data = Returns cs ->
    (forall b, exists r, pipe b = inr r) ->
    exists t tr,
      transcribe_audio decoder pipe fuel self audio_file [] = (Returns t, tr) /\
      let calls := infer_calls tr in
      let N := len cs in
      let B := batch_size self in
      len calls = ceil_div N B /\
      List.concat calls = map c_data cs /\
      (forall (i : nat) b,
          nth_error calls i = Some b -> (S i < List.length calls)%nat ->
          len b = B) /\
      (0 < N ->
       last (map len calls) 0 = if N mod B =? 0 then B else N mod B).
Proof.
  intros sample decoder pipe self audio_file audio_data fuel cs
         HB Hdec Hgen Hpipe.
  set (res := fun b => match pipe b with inr r => r | inl _ => [] end).
  assert (Hres : forall b, pipe b = inr (res b)).
  { intros b. unfold res. destruct (Hpipe b) as (r & ->). reflexivity. }
  destruct (transcribe_audio_run decoder pipe self audio_file audio_data fuel
                                 cs res Hdec Hgen (fun b _ => Hres b) [])
    as (tr & Hrun & Hcalls).
  cbn [infer_calls app] in Hcalls.
  eexists. exists tr. split; [exact Hrun|].
  cbv zeta. rewrite Hcalls.
  assert (Hlen : len (map c_data cs) = len cs)
    by (unfold len; now rewrite length_map).
  assert (H0 : len (@nil (list sample)) < batch_size self) by (cbn; lia).
  split; [|split; [|split]].
  - rewrite (batches_count _ HB _ _ H0), Hlen. reflexivity.
  - apply batches_concat.
  - intros i b Hi Hlt. exact (batches_full _ HB _ _ H0 i b Hi Hlt).
  - intros HN. rewrite (batches_last _ HB _ _ 0 H0). cbv zeta.
    rewrite Hlen. change (len (@nil (list sample))) with 0. rewrite Z.add_0_l.
    destruct (Z.eqb_spec (len cs) 0); [lia | reflexivity].
Qed.

(** Three chunks in batches of two: two calls, of 2 chunks and of 1. *)
Lemma transcribe_audio_batches_witness :
  exists t tr,
    transcribe_audio demo_decoder demo_pipe 71%nat scenario_transcriber
                     "speech.wav" [] = (Returns t, tr) /\
    let calls := infer_calls tr in
    let N := 3 in
    let B := 2 in
    len calls = ceil_div N B /\
    List.concat calls =
    [List.seq 0 30; List.seq 20 30; List.seq 40 30] /\
    (forall (i : nat) b,
        nth_error calls i = Some b -> (S i < List.length calls)%nat ->
        len b = B) /\
    (0 < N ->
     last (map len calls) 0 = if N mod B =? 0 then B else N mod B).
Proof.
  apply (transcribe_audio_batches
           nat demo_decoder demo_pipe scenario_transcriber "speech.wav"
           scenario_waveform 71%nat
           [ {| c_start := 0; c_end := 30; c_data := List.seq 0 30 |};
             {| c_start := 20; c_end := 50; c_data := List.seq 20 30 |};
             {| c_start := 40; c_end := 70; c_data := List.seq 40 30 |} ]).
  - cbn; lia.
  - reflexivity.
  - vm_compute; reflexivity.
  - intros b. eexists. reflexivity.
Defined.

(** C6.  For every run of [transcribe_audio] in which the decoder gives a
    waveform, the generator yields the chunks [cs] and the pipeline gives
    the text [fragment c] for every chunk [c] of a batch, the transcript
    returned is the texts of all the chunks, in the order the chunks were
    yielded, joined by one space; for three chunks it is
    [fragment c0 ++ " " ++ fragment c1 ++ " " ++ fragment c2]. *)
Theorem transcribe_audio_joins_fragments :
  forall (sample : Type)
         (decoder : string -> exn + waveform sample)
         (pipe : list (list sample) -> exn + list string)
         (fragment : list sample -> string)
         (self : AudioTranscriber) (audio_file : string)
         (audio_data : waveform sample) (fuel : nat)
         (cs : list (Chunk sample)),
    decoder audio_file = inr audio_data ->
    chunk_audio_list fuel self audio_data = Returns cs ->
    (forall b, pipe b = inr (map fragment b)) ->
    (forall tr,
        fst (transcribe_audio decoder pipe fuel self audio_file tr) =
        Returns (join " " (map (fun c => fragment (c_data c)) cs))) /\
    (forall c0 c1 c2,
        cs = [c0; c1; c2] ->
        join " " (map (fun c => fragment (c_data c)) cs) =
        (fragment (c_data c0) ++ " " ++ fragment (c_data c1) ++ " "
                  ++ fragment (c_data c2))%string).
Proof.
  intros sample decoder pipe fragment self audio_file audio_data fuel cs
         Hdec Hgen Hpipe.
  split.
  - intros tr.
    destruct (transcribe_audio_run decoder pipe self audio_file audio_data fuel
                                   cs (map fragment) Hdec Hgen
                                   (fun b _ => Hpipe b) tr)
      as (tr' & Hrun & _).
    rewrite Hrun. cbn [fst].
    rewrite <- concat_map, batches_concat. cbn [app].
    now rewrite map_map.
  - intros c0 c1 c2 ->. reflexivity.
Qed.

(** Three chunks in batches of two: the three words in order. *)
Lemma transcribe_audio_joins_fragments_witness :
  (forall tr,
      fst (transcribe_audio demo_decoder demo_pipe 71%nat scenario_transcriber
                            "speech.wav" tr) =
      Returns "alpha beta gamma"%string) /\
  transcribe_audio demo_decoder demo_pipe 71%nat scenario_transcriber
                   "speech.wav" [] =
  (Returns "alpha beta gamma"%string,
   [Load "speech.wav";
    Infer [List.seq 0 30; List.seq 20 30]; EmptyCache;
    Infer [List.seq 40 30]]).
Proof.
  split; [|vm_compute; reflexivity].
  apply (transcribe_audio_joins_fragments
           nat demo_decoder demo_pipe demo_fragment scenario_transcriber
           "speech.wav" scenario_waveform 71%nat
           [ {| c_start := 0; c_end := 30; c_data := List.seq 0 30 |};
             {| c_start := 20; c_end := 50; c_data := List.seq 20 30 |};
             {| c_start := 40; c_end := 70; c_data := List.seq 40 30 |} ]).
  - reflexivity.
  - vm_compute; reflexivity.
  - intros b. reflexivity.
Defined.

(** C3, on the code.  When [load_audio] raises [FileNotFoundError], and when
    [transcribe_batch] raises [RuntimeError] on the second batch,
    [transcribe_audio] returns no transcript; what reaches the caller is
    not the error raised but the [TypeError] of the handler's own
    [logging.error()], which is called without a message. *)
Theorem transcribe_audio_masks_errors :
  demo_decoder "missing.wav" = inl (mkExn "FileNotFoundError" "missing.wav") /\
  transcribe_audio demo_decoder demo_pipe 71%nat scenario_transcriber
                   "missing.wav" [] =
  (Raises (mkExn "TypeError"
                 "error() missing 1 required positional argument: 'msg'"),
   [Load "missing.wav"]) /\
  flaky_pipe [List.seq 40 30] = inl (mkExn "RuntimeError" "CUDA out of memory") /\
  transcribe_audio demo_decoder flaky_pipe 71%nat scenario_transcriber
                   "speech.wav" [] =
  (Raises (mkExn "TypeError"
                 "error() missing 1 required positional argument: 'msg'"),
   [Load "speech.wav";
    Infer [List.seq 0 30; List.seq 20 30]; EmptyCache;
    Infer [List.seq 40 30]]).
Proof. repeat split; vm_compute; reflexivity. Qed.

(* ===================================================================== *)
(** ** More on the windows of [chunk_audio] *)

Lemma py_slice_firstn {A : Type} (l : list A) (a b k : Z) :
  0 <= a -> 0 <= k -> a + k <= b -> b <= len l ->
  firstn (Z.to_nat k) (py_slice l a b) = py_slice l a (a + k).
Proof.
  intros Ha Hk Hab Hb.
  rewrite !py_slice_inside by lia.
  rewrite firstn_firstn. f_equal. lia.
Qed.

Section ClosedForm.

Context {sample : Type}.
Variable audio_data : waveform sample.
Variables L Ov : Z.

Lemma follows_nth cs : forall ps pe,
  follows audio_data L Ov ps pe cs ->
  forall (i : nat) c,
    nth_error cs i = Some c ->
    c_start c = ps + (Z.of_nat i + 1) * (L - Ov) /\ wf_chunk audio_data L c.
Proof.
  induction cs as [|c0 cs IH]; intros ps pe Hf i c Hi.
  - destruct i; discriminate.
  - destruct Hf as (_ & Hst & Hwf & Hf). destruct i as [|i].
    + injection Hi as <-. split; [lia | exact Hwf].
    + destruct (IH _ _ Hf i c Hi) as (Hc & Hwfc).
      split; [rewrite Nat2Z.inj_succ; nia | exact Hwfc].
Qed.

(** The chunk of rank [i] starts [i] strides into the waveform. *)
Lemma chunks_ok_nth cs :
  chunks_ok audio_data L Ov cs ->
  forall (i : nat) c,
    nth_error cs i = Some c ->
    c_start c = Z.of_nat i * (L - Ov) /\ wf_chunk audio_data L c.
Proof.
  intros Hok i c Hi. destruct cs as [|c0 cs]; [destruct i; discriminate|].
  destruct Hok as (H0 & Hwf & Hf). destruct i as [|i].
  - injection Hi as <-. split; [lia | exact Hwf].
  - destruct (follows_nth _ _ _ Hf i c Hi) as (Hc & Hwfc).
    split; [rewrite Nat2Z.inj_succ; nia | exact Hwfc].
Qed.

Hypothesis HOv : 0 <= Ov.
Hypothesis Hs : 1 <= L - Ov.

Lemma follows_total cs : forall ps pe,
  0 <= ps ->
  pe = Z.min (ps + L) (len audio_data) ->
  follows audio_data L Ov ps pe cs ->
  total_samples cs = (len audio_data - pe) + len cs * Ov.
Proof.
  induction cs as [|c cs IH]; intros ps pe Hps Hpe Hf.
  - cbn in *. lia.
  - destruct Hf as (Hne & Hst & Hwf & Hf).
    assert (Hc0 : 0 <= c_start c) by lia.
    assert (HL1 : 1 <= L) by lia.
    destruct (wf_chunk_len _ _ c HL1 Hc0 Hwf) as (Hlen & _).
    destruct Hwf as (Hlt & Hend & _).
    unfold total_samples in *. cbn [fold_right].
    rewrite (IH _ _ Hc0 Hend Hf), Hlen, len_cons. lia.
Qed.

End ClosedForm.

(** X1.  With a stride of at least one sample, whatever the sign of the
    overlap, the chunk of rank [i] is the slice that starts [i] strides
    into the waveform and ends [L] samples later or at the end of the
    waveform. *)
Theorem chunk_windows_closed_form :
  forall (sample : Type) (self : AudioTranscriber)
         (audio_data : waveform sample) (L Ov : Z) (fuel : nat),
    chunk_length_samples self = inr L ->
    overlap_samples self = inr Ov ->
    1 <= L - Ov ->
    (List.length audio_data < fuel)%nat ->
    exists cs,
      chunk_audio_list fuel self audio_data = Returns cs /\
      forall (i : nat) c,
        nth_error cs i = Some c ->
        c_start c = Z.of_nat i * (L - Ov) /\
        c_start c < len audio_data /\
        c_end c = Z.min (Z.of_nat i * (L - Ov) + L) (len audio_data) /\
        c_data c = py_slice audio_data (c_start c) (c_end c).
Proof.
  intros sample self audio_data L Ov fuel HL HO Hs Hfuel.
  destruct (chunk_audio_list_shape self audio_data L Ov HL HO Hs fuel Hfuel)
    as (cs & Hrun & Hok & _).
  exists cs. split; [exact Hrun|].
  intros i c Hi.
  destruct (chunks_ok_nth _ _ _ _ Hok i c Hi) as (Hst & Hlt & Hend & Hdata).
  repeat split; try assumption. now rewrite <- Hst.
Qed.

(** On the 70-sample scenario. *)
Lemma chunk_windows_closed_form_witness :
  exists cs,
    chunk_audio_list 71%nat scenario_transcriber scenario_waveform = Returns cs /\
    forall (i : nat) c,
      nth_error cs i = Some c ->
      c_start c = Z.of_nat i * (30 - 10) /\
      c_start c < len scenario_waveform /\
      c_end c = Z.min (Z.of_nat i * (30 - 10) + 30) (len scenario_waveform) /\
      c_data c = py_slice scenario_waveform (c_start c) (c_end c).
Proof.
  apply (chunk_windows_closed_form nat scenario_transcriber scenario_waveform
                                   30 10 71%nat).
  - vm_compute; reflexivity.
  - vm_compute; reflexivity.
  - lia.
  - vm_compute; lia.
Defined.

(** X2.  With [overlap_samples >= 0] and a stride of at least one sample,
    two chunks yielded one after the other share [overlap_samples] samples:
    what is left of the first after one stride is the first
    [overlap_samples] samples of the second. *)
Theorem chunks_share_overlap :
  forall (sample : Type) (self : AudioTranscriber)
         (audio_data : waveform sample) (L Ov : Z) (fuel : nat),
    chunk_length_samples self = inr L ->
    overlap_samples self = inr Ov ->
    0 <= Ov ->
    1 <= L - Ov ->
    (List.length audio_data < fuel)%nat ->
    exists cs,
      chunk_audio_list fuel self audio_data = Returns cs /\
      forall (i : nat) c c',
        nth_error cs i = Some c -> nth_error cs (S i) = Some c' ->
        skipn (Z.to_nat (L - Ov)) (c_data c) = firstn (Z.to_nat Ov) (c_data c') /\
        len (firstn (Z.to_nat Ov) (c_data c')) = Ov.
Proof.
  intros sample self audio_data L Ov fuel HL HO HOv Hs Hfuel.
  destruct (chunk_audio_list_shape self audio_data L Ov HL HO Hs fuel Hfuel)
    as (cs & Hrun & Hok & _).
  exists cs. split; [exact Hrun|].
  intros i c c' Hi Hi'.
  destruct (chunks_ok_chain _ _ _ _ Hok i c c' Hi Hi') as (Hfull & Hnext).
  destruct (chunks_ok_nth _ _ _ _ Hok i c Hi) as (Hst & Hlt & Hend & Hdata).
  destruct (chunks_ok_nth _ _ _ _ Hok (S i) c' Hi') as (Hst' & Hlt' & Hend' & Hdata').
  assert (H0 : 0 <= c_start c) by (rewrite Hst; nia).
  rewrite Hdata, Hdata'.
  rewrite py_slice_skipn by lia.
  rewrite py_slice_firstn by lia.
  replace (c_start c + (L - Ov)) with (c_start c') by lia.
  replace (c_start c' + Ov) with (c_end c) by lia.
  split; [reflexivity|].
  rewrite len_py_slice; lia.
Qed.

(** On the 70-sample scenario: 10 samples shared. *)
Lemma chunks_share_overlap_witness :
  exists cs,
    chunk_audio_list 71%nat scenario_transcriber scenario_waveform = Returns cs /\
    forall (i : nat) c c',
      nth_error cs i = Some c -> nth_error cs (S i) = Some c' ->
      skipn (Z.to_nat (30 - 10)) (c_data c) = firstn (Z.to_nat 10) (c_data c') /\
      len (firstn (Z.to_nat 10) (c_data c')) = 10.
Proof.
  apply (chunks_share_overlap nat scenario_transcriber scenario_waveform
                              30 10 71%nat).
  - vm_compute; reflexivity.
  - vm_compute; reflexivity.
  - lia.
  - lia.
  - vm_compute; lia.
Defined.

(** X3.  With an overlap of 0 samples and a window of at least one sample
    the chunks are a partition of the waveform: each chunk starts where the
    one before it ends, and the chunks put end to end are the waveform. *)
Theorem zero_overlap_partitions :
  forall (sample : Type) (self : AudioTranscriber)
         (audio_data : waveform sample) (L : Z) (fuel : nat),
    chunk_length_samples self = inr L ->
    overlap_samples self = inr 0 ->
    1 <= L ->
    (List.length audio_data < fuel)%nat ->
    exists cs,
      chunk_audio_list fuel self audio_data = Returns cs /\
      (forall (i : nat) c c',
          nth_error cs i = Some c -> nth_error cs (S i) = Some c' ->
          c_start c' = c_end c) /\
      List.concat (map c_data cs) = audio_data.
Proof.
  intros sample self audio_data L fuel HL HO HL1 Hfuel.
  assert (Hs : 1 <= L - 0) by lia.
  destruct (chunk_audio_list_shape self audio_data L 0 HL HO Hs fuel Hfuel)
    as (cs & Hrun & Hok & _).
  exists cs. split; [exact Hrun|]. split.
  - intros i c c' Hi Hi'.
    destruct (chunks_ok_chain _ _ _ _ Hok i c c' Hi Hi'). lia.
  - pose proof (chunks_ok_stitch _ _ _ Hs (Z.le_refl 0) _ Hok) as Hst.
    destruct cs as [|c cs]; [exact Hst|].
    cbn [stitch] in Hst. cbn [map List.concat]. exact Hst.
Qed.

(** Windows of 30 samples without overlap on the 70 samples. *)
Lemma zero_overlap_partitions_witness :
  exists cs,
    chunk_audio_list 71%nat contiguous_transcriber scenario_waveform = Returns cs /\
    (forall (i : nat) c c',
        nth_error cs i = Some c -> nth_error cs (S i) = Some c' ->
        c_start c' = c_end c) /\
    List.concat (map c_data cs) = scenario_waveform.
Proof.
  apply (zero_overlap_partitions nat contiguous_transcriber scenario_waveform
                                 30 71%nat).
  - vm_compute; reflexivity.
  - reflexivity.
  - lia.
  - vm_compute; lia.
Defined.

(** [int] raises on a NaN and on an infinity, and on nothing else; both
    errors are instances of [Exception]. *)
Lemma py_int_error (x : pynum) (e : exn) :
  py_int x = inl e -> e = nan_to_int \/ e = inf_to_int.
Proof.
  destruct x as [z|f]; cbn; [discriminate|].
  destruct (Prim2SF f); intros [= <-]; auto.
Qed.

Lemma py_int_error_is_exception (x : pynum) (e : exn) :
  py_int x = inl e -> is_exception e = true.
Proof.
  intros H. destruct (py_int_error _ _ H) as [-> | ->]; reflexivity.
Qed.

(** X4.  A waveform that is not empty and no longer than the window, under
    every overlap.  When [int] converts [overlap_seconds * sample_rate] to
    an integer, whatever that integer is (negative, zero, the window or
    more, so also with a stride below one sample), the waveform is yielded
    whole, as the only chunk.  When the product is a NaN or an infinity,
    [int] raises at the first [next], before the loop, and nothing is
    yielded: the exception of [int] leaves the generator. *)
Theorem short_waveform_single_chunk :
  forall (sample : Type) (self : AudioTranscriber)
         (audio_data : waveform sample) (L : Z) (fuel : nat),
    chunk_length_samples self = inr L ->
    audio_data <> [] ->
    len audio_data <= L ->
    chunk_audio_list (S (S fuel)) self audio_data =
    match overlap_samples self with
    | inr _ =>
        Returns [ {| c_start := 0; c_end := len audio_data;
                     c_data := audio_data |} ]
    | inl e => Raises e
    end.
Proof.
  intros sample self audio_data L fuel HL HW Hshort.
  destruct (overlap_samples self) as [e|Ov] eqn:HO.
  - unfold chunk_audio_list, chunk_audio. cbn [drain next].
    rewrite HL, HO. reflexivity.
  - eapply chunk_audio_list_single; eassumption.
Qed.

(** Three samples under the defaults: one chunk of three samples; with an
    overlap of NaN seconds: the [ValueError] of [int]. *)
Lemma short_waveform_single_chunk_witness :
  chunk_audio_list 2%nat default_transcriber [1%nat; 2%nat; 3%nat] =
  Returns [ {| c_start := 0; c_end := len [1%nat; 2%nat; 3%nat];
               c_data := [1%nat; 2%nat; 3%nat] |} ] /\
  chunk_audio_list 2%nat nan_overlap_transcriber [1%nat; 2%nat; 3%nat] =
  Raises nan_to_int.
Proof.
  split.
  - apply (short_waveform_single_chunk nat default_transcriber
                                       [1%nat; 2%nat; 3%nat] 480000 0%nat).
    + reflexivity.
    + discriminate.
    + cbn; lia.
  - apply (short_waveform_single_chunk nat nan_overlap_transcriber
                                       [1%nat; 2%nat; 3%nat] 480000 0%nat).
    + reflexivity.
    + discriminate.
    + cbn; lia.
Defined.

(** X5.  With [overlap_samples >= 0] and a stride of at least one sample,
    the chunks of a waveform that is not empty hold [len(W)] samples plus
    [overlap_samples] for every chunk after the first: that many samples
    are handed to the pipeline. *)
Theorem total_samples_sent :
  forall (sample : Type) (self : AudioTranscriber)
         (audio_data : waveform sample) (L Ov : Z) (fuel : nat),
    chunk_length_samples self = inr L ->
    overlap_samples self = inr Ov ->
    0 <= Ov ->
    1 <= L - Ov ->
    (List.length audio_data < fuel)%nat ->
    audio_data <> [] ->
    exists cs,
      chunk_audio_list fuel self audio_data = Returns cs /\
      total_samples cs = len audio_data + (len cs - 1) * Ov.
Proof.
  intros sample self audio_data L Ov fuel HL HO HOv Hs Hfuel HW.
  destruct (chunk_audio_list_shape self audio_data L Ov HL HO Hs fuel Hfuel)
    as (cs & Hrun & Hok & _).
  exists cs. split; [exact Hrun|].
  destruct cs as [|c cs].
  - cbn in Hok. now apply len_nil_iff in Hok.
  - destruct Hok as (H0 & Hwf & Hf).
    assert (Hc0 : 0 <= c_start c) by lia.
    assert (HL1 : 1 <= L) by lia.
    destruct (wf_chunk_len _ _ c HL1 Hc0 Hwf) as (Hlen & _).
    destruct Hwf as (Hlt & Hend & _).
    pose proof (follows_total _ _ _ HOv Hs _ _ _ Hc0 Hend Hf) as Htot.
    unfold total_samples in *. cbn [fold_right].
    rewrite Htot, Hlen, len_cons. lia.
Qed.

(** The 70-sample scenario: 70 + 2 * 10 samples in three chunks. *)
Lemma total_samples_sent_witness :
  exists cs,
    chunk_audio_list 71%nat scenario_transcriber scenario_waveform = Returns cs /\
    total_samples cs = len scenario_waveform + (len cs - 1) * 10.
Proof.
  apply (total_samples_sent nat scenario_transcriber scenario_waveform
                            30 10 71%nat).
  - vm_compute; reflexivity.
  - vm_compute; reflexivity.
  - lia.
  - lia.
  - vm_compute; lia.
  - discriminate.
Defined.

(** X7.  With a window of at least one sample and a negative overlap the
    stride is longer than the window, and the samples between the end of
    the first window and the start of the second are in no chunk: the
    generator skips them without any error. *)
Theorem negative_overlap_skips_samples :
  forall (sample : Type) (self : AudioTranscriber)
         (audio_data : waveform sample) (L Ov : Z) (fuel : nat),
    chunk_length_samples self = inr L ->
    overlap_samples self = inr Ov ->
    1 <= L ->
    Ov < 0 ->
    (List.length audio_data < fuel)%nat ->
    exists cs,
      chunk_audio_list fuel self audio_data = Returns cs /\
      forall j c, L <= j < L - Ov -> In c cs -> ~ (c_start c <= j < c_end c).
Proof.
  intros sample self audio_data L Ov fuel HL HO HL1 HOv Hfuel.
  assert (Hs : 1 <= L - Ov) by lia.
  destruct (chunk_audio_list_shape self audio_data L Ov HL HO Hs fuel Hfuel)
    as (cs & Hrun & Hok & _).
  exists cs. split; [exact Hrun|].
  intros j c Hj Hin Hcov.
  destruct (In_nth_error _ _ Hin) as (i & Hi).
  destruct (chunks_ok_nth _ _ _ _ Hok i c Hi) as (Hst & Hlt & Hend & _).
  destruct i as [|i].
  - cbn in Hst. lia.
  - rewrite Nat2Z.inj_succ in Hst. nia.
Qed.

(** Windows of 30 samples every 40 samples on the 70 samples: the samples
    30 to 39 are in no chunk. *)
Lemma negative_overlap_skips_samples_witness :
  exists cs,
    chunk_audio_list 71%nat gap_transcriber scenario_waveform = Returns cs /\
    forall j c, 30 <= j < 30 - (-10) -> In c cs -> ~ (c_start c <= j < c_end c).
Proof.
  apply (negative_overlap_skips_samples nat gap_transcriber scenario_waveform
                                        30 (-10) 71%nat).
  - vm_compute; reflexivity.
  - vm_compute; reflexivity.
  - lia.
  - lia.
  - vm_compute; lia.
Defined.

(* ===================================================================== *)
(** ** More on the runs of [transcribe_audio] *)

Lemma batches_single {X : Type} (B : Z) (chunks : list X) : forall buf,
  B <= 0 \/ len buf + len chunks < B ->
  batches B buf chunks =
  match buf ++ chunks with [] => [] | _ :: _ => [buf ++ chunks] end.
Proof.
  induction chunks as [|c cs IH]; intros buf HB; cbn [batches].
  - rewrite app_nil_r. destruct buf; reflexivity.
  - pose proof (len_nonneg buf). pose proof (len_nonneg cs).
    rewrite len_cons in HB.
    destruct (Z.eqb_spec (len (buf ++ [c])) B) as [E|E];
      rewrite len_app_one in E; [lia|].
    rewrite IH by (rewrite len_app_one; lia).
    rewrite <- app_assoc. cbn [app].
    destruct buf; reflexivity.
Qed.

Lemma events_of_cons {sample : Type} (B : Z) (b : list (list sample)) bs :
  events_of B (b :: bs) =
  (if len b =? B then [Infer b; EmptyCache] else [Infer b]) ++ events_of B bs.
Proof. reflexivity. Qed.

Lemma empty_cache_calls_batches {sample : Type} (B : Z)
      (chunks : list (list sample)) : forall buf,
  1 <= B -> len buf < B ->
  empty_cache_calls (events_of B (batches B buf chunks)) =
  (len buf + len chunks) / B.
Proof.
  induction chunks as [|c cs IH]; intros buf HB Hbuf; cbn [batches].
  - pose proof (len_nonneg buf). change (len (@nil (list sample))) with 0.
    rewrite Z.add_0_r, Z.div_small by lia.
    destruct buf as [|x buf]; [reflexivity|].
    rewrite events_of_cons.
    destruct (Z.eqb_spec (len (x :: buf)) B); [lia | reflexivity].
  - pose proof (len_nonneg buf). pose proof (len_nonneg cs).
    rewrite len_cons.
    destruct (len (buf ++ [c]) =? B) eqn:E.
    + rewrite events_of_cons, E. cbn [app empty_cache_calls].
      rewrite IH by (cbn; lia).
      apply Z.eqb_eq in E. rewrite len_app_one in E.
      change (len (@nil (list sample))) with 0. rewrite Z.add_0_l.
      replace (len buf + (len cs + 1)) with (len cs + 1 * B) by lia.
      rewrite Z.div_add by lia. lia.
    + apply Z.eqb_neq in E. rewrite len_app_one in E.
      rewrite IH by (rewrite ?len_app_one; lia).
      rewrite len_app_one. f_equal. lia.
Qed.

Section MoreDriverFacts.

Context {sample : Type}.
Variable decoder : string -> exn + waveform sample.
Variable pipe : list (list sample) -> exn + list string.

(** The whole log of the loop and of what follows it, when the pipeline
    answers [res b] on every batch. *)
Lemma for_list_trace self (res : list (list sample) -> list string) :
  forall cs buf all tr,
    buf = [] \/ len buf <> batch_size self ->
    (forall b, In b (batches (batch_size self) buf cs) -> pipe b = inr (res b)) ->
    bind (for_list pipe self cs buf all) (after_loop pipe self) tr =
    (Returns (join " " (all ++ List.concat
                                 (map res (batches (batch_size self) buf cs)))),
     tr ++ events_of (batch_size self) (batches (batch_size self) buf cs)).
Proof.
  induction cs as [|c cs IH]; intros buf all tr Hbuf Hres.
  - cbn [for_list batches] in *. rewrite bind_ret. unfold after_loop.
    destruct buf as [|x buf].
    + rewrite bind_ret. cbn. now rewrite !app_nil_r.
    + destruct Hbuf as [Hbuf|Hbuf]; [discriminate|].
      rewrite bind_bind.
      rewrite (bind_transcribe_batch_ok _ _ _ _ _ _ (Hres _ (or_introl eq_refl))).
      rewrite !bind_ret, events_of_cons. cbn [map List.concat].
      destruct (Z.eqb_spec (len (x :: buf)) (batch_size self)); [contradiction|].
      cbn. now rewrite !app_nil_r.
  - cbn [for_list batches] in *.
    destruct (len (buf ++ [c]) =? batch_size self) eqn:E.
    + rewrite bind_bind.
      rewrite (bind_transcribe_batch_ok _ _ _ _ _ _ (Hres _ (or_introl eq_refl))).
      rewrite bind_bind, bind_empty_cache.
      rewrite IH; [|now left|intros b Hb; apply Hres; now right].
      rewrite events_of_cons, E. cbn [map List.concat].
      f_equal; [now rewrite <- app_assoc|].
      now rewrite <- !app_assoc.
    + apply Z.eqb_neq in E. apply IH; [now right | exact Hres].
Qed.

Lemma transcribe_audio_body_for_list self file audio_data fuel cs tr :
  decoder file = inr audio_data ->
  chunk_audio_list fuel self audio_data = Returns cs ->
  transcribe_audio_body decoder pipe fuel self file tr =
  bind (for_list pipe self (map c_data cs) [] [])
       (after_loop pipe self) (tr ++ [Load file]).
Proof.
  intros Hdec Hgen. unfold transcribe_audio_body.
  rewrite (bind_load_audio_ok _ _ _ _ _ _ Hdec). cbv zeta.
  apply bind_ext, for_chunks_for_list. exact Hgen.
Qed.

Lemma transcribe_audio_trace self file audio_data fuel cs
      (res : list (list sample) -> list string) :
  decoder file = inr audio_data ->
  chunk_audio_list fuel self audio_data = Returns cs ->
  (forall b, In b (batches (batch_size self) [] (map c_data cs)) ->
             pipe b = inr (res b)) ->
  forall tr,
    transcribe_audio decoder pipe fuel self file tr =
    (Returns (join " " (List.concat
                          (map res (batches (batch_size self) []
                                            (map c_data cs))))),
     tr ++ Load file
        :: events_of (batch_size self)
                     (batches (batch_size self) [] (map c_data cs))).
Proof.
  intros Hdec Hgen Hres tr.
  unfold transcribe_audio, except_logging_error.
  rewrite (transcribe_audio_body_for_list _ _ _ _ _ _ Hdec Hgen).
  rewrite (for_list_trace self res _ [] [] _ (or_introl eq_refl) Hres).
  cbn [app]. now rewrite <- app_assoc.
Qed.

(** What a run comes to, whatever the pipeline does: all the batches are
    handed over and it returns, or it stops at the first batch on which the
    pipeline raises. *)
Lemma for_list_outcome self : forall cs buf all tr,
  exists r tr',
    bind (for_list pipe self cs buf all) (after_loop pipe self) tr = (r, tr') /\
    ((exists t,
         r = Returns t /\
         infer_calls tr' = infer_calls tr ++ batches (batch_size self) buf cs /\
         Forall (fun b => exists x, pipe b = inr x)
                (batches (batch_size self) buf cs))
     \/
     (exists pre b post e,
         batches (batch_size self) buf cs = pre ++ b :: post /\
         Forall (fun b => exists x, pipe b = inr x) pre /\
         pipe b = inl e /\
         r = Raises e /\
         infer_calls tr' = infer_calls tr ++ pre ++ [b])).
Proof.
  induction cs as [|c cs IH]; intros buf all tr.
  - cbn [for_list batches]. rewrite bind_ret. unfold after_loop.
    destruct buf as [|x buf].
    + rewrite bind_ret. do 2 eexists. split; [reflexivity|]. left.
      eexists. split; [reflexivity|]. split; [now rewrite app_nil_r | constructor].
    + rewrite bind_bind. destruct (pipe (x :: buf)) as [e|r] eqn:Hp.
      * rewrite (bind_transcribe_batch_err _ _ _ _ _ _ Hp).
        do 2 eexists. split; [reflexivity|]. right.
        exists [], (x :: buf), [], e. repeat split; try assumption.
        -- constructor.
        -- now rewrite infer_calls_app.
      * rewrite (bind_transcribe_batch_ok _ _ _ _ _ _ Hp), !bind_ret.
        do 2 eexists. split; [reflexivity|]. left.
        eexists. split; [reflexivity|]. split.
        -- now rewrite infer_calls_app.
        -- constructor; [now exists r | constructor].
  - cbn [for_list batches].
    destruct (len (buf ++ [c]) =? batch_size self); [|apply IH].
    rewrite bind_bind. destruct (pipe (buf ++ [c])) as [e|r] eqn:Hp.
    + rewrite (bind_transcribe_batch_err _ _ _ _ _ _ Hp).
      do 2 eexists. split; [reflexivity|]. right.
      exists [], (buf ++ [c]), (batches (batch_size self) [] cs), e.
      repeat split; try assumption.
      * constructor.
      * now rewrite infer_calls_app.
    + rewrite (bind_transcribe_batch_ok _ _ _ _ _ _ Hp).
      rewrite bind_bind, bind_empty_cache.
      destruct (IH [] (all ++ r) ((tr ++ [Infer (buf ++ [c])]) ++ [EmptyCache]))
        as (r' & tr' & Hrun & Hcase).
      exists r', tr'. split; [exact Hrun|].
      assert (Hpre : infer_calls ((tr ++ [Infer (buf ++ [c])]) ++ [EmptyCache])
                     = infer_calls tr ++ [buf ++ [c]])
        by (rewrite !infer_calls_app; cbn; now rewrite app_nil_r).
      destruct Hcase as [(t & -> & Hcalls & Hall)
                        |(pre & b & post & e & Hbs & Hall & Hb & -> & Hcalls)].
      * left. eexists. split; [reflexivity|]. split.
        -- rewrite Hcalls, Hpre. now rewrite <- app_assoc.
        -- constructor; [now exists r | exact Hall].
      * right. exists ((buf ++ [c]) :: pre), b, post, e.
        repeat split; try assumption.
        -- now rewrite Hbs.
        -- constructor; [now exists r | exact Hall].
        -- rewrite Hcalls, Hpre. now rewrite <- !app_assoc.
Qed.

End MoreDriverFacts.

(** A run of the generator that returns within some fuel returns the same
    chunks within any larger fuel. *)
Lemma drain_more_fuel {sample : Type} (self : AudioTranscriber)
      (audio_data : list sample) :
  forall (fuel : nat) (g : generator) (cs : list (@Chunk sample)),
    drain fuel self audio_data g = Returns cs ->
    forall fuel' : nat,
      (fuel <= fuel')%nat ->
      drain fuel' self audio_data g = Returns cs.
Proof.
  induction fuel as [|k IH]; intros g cs Hrun fuel' Hle; [discriminate|].
  destruct fuel' as [|k']; [lia|].
  cbn [drain] in *.
  destruct (next self audio_data g) as [[e|[c|]] g'].
  - discriminate.
  - destruct (drain k self audio_data g') as [cs0| |] eqn:Hd;
      try discriminate.
    rewrite (IH _ _ Hd k') by lia. exact Hrun.
  - exact Hrun.
Qed.

(** C9.  For every audio file and every configuration with a stride of at
    least one sample, two calls of [transcribe_audio] on the file return
    the same transcript and make the same calls, whatever was called
    before each of them and however long each is left to run, and even
    with two decoders and two backends, as long as the decoders read the
    same waveform from the file and the backends give the same texts on the
    batches handed to them.  The chunks are the slices fixed by the
    waveform, the window and the stride; the batches are these chunks
    grouped in order by [batch_size]; the calls are the decoder, then the
    batches in order; the transcript is the texts of the batches, in the
    order of the batches, joined by spaces.  A backend that is a function
    of its batch, called in two runs, is the case [pipe1 = pipe2]. *)
Theorem transcribe_audio_repeatable :
  forall (sample : Type)
         (decoder1 decoder2 : string -> exn + waveform sample)
         (pipe1 pipe2 : list (list sample) -> exn + list string)
         (self : AudioTranscriber) (audio_file : string)
         (audio_data : waveform sample) (L Ov : Z) (fuel1 fuel2 : nat),
    decoder1 audio_file = inr audio_data ->
    decoder2 audio_file = inr audio_data ->
    chunk_length_samples self = inr L ->
    overlap_samples self = inr Ov ->
    1 <= L - Ov ->
    (List.length audio_data < fuel1)%nat ->
    (List.length audio_data < fuel2)%nat ->
    exists cs,
      chunk_audio_list fuel1 self audio_data = Returns cs /\
      chunk_audio_list fuel2 self audio_data = Returns cs /\
      (forall (i : nat) c,
          nth_error cs i = Some c ->
          c_data c =
          py_slice audio_data (Z.of_nat i * (L - Ov))
                   (Z.min (Z.of_nat i * (L - Ov) + L) (len audio_data))) /\
      forall res : list (list sample) -> list string,
        (forall b,
            In b (batches (batch_size self) [] (map c_data cs)) ->
            pipe1 b = inr (res b) /\ pipe2 b = inr (res b)) ->
        forall tr1 tr2,
          transcribe_audio decoder1 pipe1 fuel1 self audio_file tr1 =
          (Returns (join " " (List.concat
                                (map res (batches (batch_size self) []
                                                  (map c_data cs))))),
           tr1 ++ Load audio_file
               :: events_of (batch_size self)
                            (batches (batch_size self) [] (map c_data cs)))
          /\
          transcribe_audio decoder2 pipe2 fuel2 self audio_file tr2 =
          (Returns (join " " (List.concat
                                (map res (batches (batch_size self) []
                                                  (map c_data cs))))),
           tr2 ++ Load audio_file
               :: events_of (batch_size self)
                            (batches (batch_size self) [] (map c_data cs))).
Proof.
  intros sample decoder1 decoder2 pipe1 pipe2 self audio_file audio_data
         L Ov fuel1 fuel2 Hdec1 Hdec2 HL HO Hs Hfuel1 Hfuel2.
  destruct (chunk_audio_list_shape self audio_data L Ov HL HO Hs
                                   (S (List.length audio_data))
                                   (Nat.lt_succ_diag_r _))
    as (cs & Hgen & Hok & _).
  assert (Hgen1 : chunk_audio_list fuel1 self audio_data = Returns cs)
    by (apply (drain_more_fuel _ _ _ _ _ Hgen); lia).
  assert (Hgen2 : chunk_audio_list fuel2 self audio_data = Returns cs)
    by (apply (drain_more_fuel _ _ _ _ _ Hgen); lia).
  exists cs. split; [exact Hgen1|]. split; [exact Hgen2|]. split.
  - intros i c Hi.
    destruct (chunks_ok_nth _ _ _ _ Hok i c Hi) as (Hst & _ & Hend & Hdata).
    rewrite Hdata, Hend, Hst. reflexivity.
  - intros res Hres tr1 tr2. split.
    + apply (transcribe_audio_trace decoder1 pipe1 self audio_file audio_data
                                    fuel1 cs res Hdec1 Hgen1).
      intros b Hb. apply (Hres b Hb).
    + apply (transcribe_audio_trace decoder2 pipe2 self audio_file audio_data
                                    fuel2 cs res Hdec2 Hgen2).
      intros b Hb. apply (Hres b Hb).
Qed.

(** The scenario run twice, for 71 and for 100 steps. *)
Lemma transcribe_audio_repeatable_witness :
  exists cs,
    chunk_audio_list 71%nat scenario_transcriber scenario_waveform = Returns cs /\
    chunk_audio_list 100%nat scenario_transcriber scenario_waveform = Returns cs /\
    (forall (i : nat) c,
        nth_error cs i = Some c ->
        c_data c =
        py_slice scenario_waveform (Z.of_nat i * (30 - 10))
                 (Z.min (Z.of_nat i * (30 - 10) + 30) (len scenario_waveform))) /\
    forall res : list (list nat) -> list string,
      (forall b,
          In b (batches 2 [] (map c_data cs)) ->
          demo_pipe b = inr (res b) /\ demo_pipe b = inr (res b)) ->
      forall tr1 tr2,
        transcribe_audio demo_decoder demo_pipe 71%nat scenario_transcriber
                         "speech.wav" tr1 =
        (Returns (join " " (List.concat
                              (map res (batches 2 [] (map c_data cs))))),
         tr1 ++ Load "speech.wav"
             :: events_of 2 (batches 2 [] (map c_data cs)))
        /\
        transcribe_audio demo_decoder demo_pipe 100%nat scenario_transcriber
                         "speech.wav" tr2 =
        (Returns (join " " (List.concat
                              (map res (batches 2 [] (map c_data cs))))),
         tr2 ++ Load "speech.wav"
             :: events_of 2 (batches 2 [] (map c_data cs))).
Proof.
  apply (transcribe_audio_repeatable
           nat demo_decoder demo_decoder demo_pipe demo_pipe
           scenario_transcriber "speech.wav" scenario_waveform 30 10
           71%nat 100%nat).
  - reflexivity.
  - reflexivity.
  - vm_compute; reflexivity.
  - vm_compute; reflexivity.
  - lia.
  - vm_compute; lia.
  - vm_compute; lia.
Defined.

(** X6.  When [chunk_length_seconds * sample_rate] or
    [overlap_seconds * sample_rate] is not a finite number, [int] raises
    ([ValueError] for a NaN, [OverflowError] for an infinity) at the first
    [next]: the generator yields nothing, and [transcribe_audio], having
    loaded the audio, makes no call of the pipeline and ends in the
    [TypeError] of its handler. *)
Theorem nonfinite_seconds_raise :
  forall (sample : Type)
         (decoder : string -> exn + waveform sample)
         (pipe : list (list sample) -> exn + list string)
         (self : AudioTranscriber) (e : exn)
         (audio_file : string) (audio_data : waveform sample) (fuel : nat),
    chunk_length_samples self = inl e \/
    ((exists L, chunk_length_samples self = inr L) /\
     overlap_samples self = inl e) ->
    decoder audio_file = inr audio_data ->
    (e = nan_to_int \/ e = inf_to_int) /\
    chunk_audio_list (S fuel) self audio_data = Raises e /\
    forall tr,
      transcribe_audio decoder pipe (S fuel) self audio_file tr =
      (Raises logging_error_no_msg, tr ++ [Load audio_file]).
Proof.
  intros sample decoder pipe self e audio_file audio_data fuel He Hdec.
  assert (Hkind : e = nan_to_int \/ e = inf_to_int).
  { assert (Hint : forall x, py_int x = inl e -> e = nan_to_int \/ e = inf_to_int).
    { intros [z|f]; cbn; [discriminate|].
      destruct (Prim2SF f); intros [= <-]; auto. }
    destruct He as [He|(_ & He)]; exact (Hint _ He). }
  assert (Hnext : next self audio_data Created = (inl e, Finished)).
  { cbn [next]. destruct He as [->|((L & ->) & ->)]; reflexivity. }
  split; [exact Hkind|]. split.
  - unfold chunk_audio_list, chunk_audio. cbn [drain]. now rewrite Hnext.
  - intros tr.
    unfold transcribe_audio, except_logging_error, transcribe_audio_body.
    rewrite (bind_load_audio_ok _ _ _ _ _ _ Hdec). cbv zeta.
    unfold chunk_audio, bind. cbn [for_chunks]. rewrite Hnext.
    destruct Hkind as [-> | ->]; reflexivity.
Qed.

(** A window of NaN seconds. *)
Lemma nonfinite_seconds_raise_witness :
  (nan_to_int = nan_to_int \/ nan_to_int = inf_to_int) /\
  chunk_audio_list 1%nat nan_transcriber scenario_waveform = Raises nan_to_int /\
  forall tr,
    transcribe_audio demo_decoder demo_pipe 1%nat nan_transcriber
                     "speech.wav" tr =
    (Raises logging_error_no_msg, tr ++ [Load "speech.wav"]).
Proof.
  apply (nonfinite_seconds_raise nat demo_decoder demo_pipe nan_transcriber
                                 nan_to_int "speech.wav" scenario_waveform
                                 0%nat).
  - left. vm_compute; reflexivity.
  - reflexivity.
Defined.

(** X8.  When the batch size is not positive, or larger than the number of
    chunks, the test [len(batch_chunks) == self.batch_size] never holds in
    the loop: all the chunks go to the pipeline in one call made after the
    loop, [torch.cuda.empty_cache()] is not called, and the transcript is
    the join of what that call returns. *)
Theorem single_call_when_never_full :
  forall (sample : Type)
         (decoder : string -> exn + waveform sample)
         (pipe : list (list sample) -> exn + list string)
         (self : AudioTranscriber) (audio_file : string)
         (audio_data : waveform sample) (fuel : nat)
         (cs : list (Chunk sample)) (texts : list string),
    batch_size self <= 0 \/ len cs < batch_size self ->
    cs <> [] ->
    decoder audio_file = inr audio_data ->
    chunk_audio_list fuel self audio_data = Returns cs ->
    pipe (map c_data cs) = inr texts ->
    forall tr,
      transcribe_audio decoder pipe fuel self audio_file tr =
      (Returns (join " " texts),
       tr ++ [Load audio_file; Infer (map c_data cs)]).
Proof.
  intros sample decoder pipe self audio_file audio_data fuel cs texts
         HB Hcs Hdec Hgen Hpipe tr.
  assert (Hlen : len (map c_data cs) = len cs)
    by (unfold len; now rewrite length_map).
  assert (Hbs : batches (batch_size self) [] (map c_data cs) = [map c_data cs]).
  { rewrite batches_single by (cbn; rewrite Hlen; lia).
    cbn [app]. destruct cs; [contradiction | reflexivity]. }
  rewrite (transcribe_audio_trace decoder pipe self audio_file audio_data fuel
                                  cs (fun _ => texts) Hdec Hgen).
  - rewrite Hbs, events_of_cons. cbn [map List.concat].
    destruct (Z.eqb_spec (len (map c_data cs)) (batch_size self)) as [E|E].
    + exfalso. rewrite Hlen in E. pose proof (len_nonneg cs).
      assert (len cs <> 0)
        by (intros H0; apply len_nil_iff in H0; contradiction).
      lia.
    + now rewrite app_nil_r.
  - intros b Hb. rewrite Hbs in Hb. destruct Hb as [<-|[]]. exact Hpipe.
Qed.

(** The 70-sample scenario with a batch size of 0. *)
Lemma single_call_when_never_full_witness :
  transcribe_audio demo_decoder demo_pipe 71%nat unbatched_transcriber
                   "speech.wav" [] =
  (Returns (join " " ["alpha"; "beta"; "gamma"]%string),
   [] ++ [Load "speech.wav";
          Infer [List.seq 0 30; List.seq 20 30; List.seq 40 30]]).
Proof.
  apply (single_call_when_never_full
           nat demo_decoder demo_pipe unbatched_transcriber "speech.wav"
           scenario_waveform 71%nat
           [ {| c_start := 0; c_end := 30; c_data := List.seq 0 30 |};
             {| c_start := 20; c_end := 50; c_data := List.seq 20 30 |};
             {| c_start := 40; c_end := 70; c_data := List.seq 40 30 |} ]
           ["alpha"; "beta"; "gamma"]%string).
  - left. cbn; lia.
  - discriminate.
  - reflexivity.
  - vm_compute; reflexivity.
  - reflexivity.
Defined.

(** X9.  In a run with a batch size [B >= 1] whose pipeline does not fail,
    the calls are, in order: the decoder, then every batch, each full batch
    followed at once by [torch.cuda.empty_cache()] and the batch that is
    left at the end by nothing; [empty_cache] is called [N // B] times for
    [N] chunks. *)
Theorem empty_cache_after_full_batches :
  forall (sample : Type)
         (decoder : string -> exn + waveform sample)
         (pipe : list (list sample) -> exn + list string)
         (self : AudioTranscriber) (audio_file : string)
         (audio_data : waveform sample) (fuel : nat)
         (cs : list (Chunk sample)),
    1 <= batch_size self ->
    decoder audio_file = inr audio_data ->
    chunk_audio_list fuel self audio_data = Returns cs ->
    (forall b, exists r, pipe b = inr r) ->
    exists t tr,
      transcribe_audio decoder pipe fuel self audio_file [] = (Returns t, tr) /\
      tr = Load audio_file
             :: events_of (batch_size self)
                          (batches (batch_size self) [] (map c_data cs)) /\
      empty_cache_calls tr = len cs / batch_size self.
Proof.
  intros sample decoder pipe self audio_file audio_data fuel cs
         HB Hdec Hgen Hpipe.
  set (res := fun b => match pipe b with inr r => r | inl _ => [] end).
  assert (Hres : forall b, pipe b = inr (res b)).
  { intros b. unfold res. destruct (Hpipe b) as (r & ->). reflexivity. }
  do 2 eexists. split; [|split; [reflexivity|]].
  - rewrite (transcribe_audio_trace decoder pipe self audio_file audio_data fuel
                                    cs res Hdec Hgen (fun b _ => Hres b)).
    reflexivity.
  - cbn [empty_cache_calls].
    rewrite empty_cache_calls_batches by (cbn; lia).
    change (len (@nil (list sample))) with 0. rewrite Z.add_0_l.
    unfold len. now rewrite length_map.
Qed.

(** Three chunks in batches of two: one [empty_cache], after the first
    batch. *)
Lemma empty_cache_after_full_batches_witness :
  exists t tr,
    transcribe_audio demo_decoder demo_pipe 71%nat scenario_transcriber
                     "speech.wav" [] = (Returns t, tr) /\
    tr = [Load "speech.wav";
          Infer [List.seq 0 30; List.seq 20 30]; EmptyCache;
          Infer [List.seq 40 30]] /\
    empty_cache_calls tr = 3 / 2.
Proof.
  apply (empty_cache_after_full_batches
           nat demo_decoder demo_pipe scenario_transcriber "speech.wav"
           scenario_waveform 71%nat
           [ {| c_start := 0; c_end := 30; c_data := List.seq 0 30 |};
             {| c_start := 20; c_end := 50; c_data := List.seq 20 30 |};
             {| c_start := 40; c_end := 70; c_data := List.seq 40 30 |} ]).
  - cbn; lia.
  - reflexivity.
  - vm_compute; reflexivity.
  - intros b. eexists. reflexivity.
Defined.

(** X10.  Whether the pipeline answers or raises, once the audio is loaded
    and the generator is one that comes to its end, a run either hands all
    the batches to the pipeline, which answers each of them, and returns;
    or it stops at the first batch on which the pipeline raises: the
    batches before it were answered, no batch after it is handed over, and
    the caller gets the [TypeError] of the handler when what the pipeline
    raised is an instance of [Exception], and what the pipeline raised
    when it is not ([KeyboardInterrupt], [SystemExit], ...), since
    [except Exception] does not catch it. *)
Theorem failing_batch_stops_run :
  forall (sample : Type)
         (decoder : string -> exn + waveform sample)
         (pipe : list (list sample) -> exn + list string)
         (self : AudioTranscriber) (audio_file : string)
         (audio_data : waveform sample) (fuel : nat)
         (cs : list (Chunk sample)),
    decoder audio_file = inr audio_data ->
    chunk_audio_list fuel self audio_data = Returns cs ->
    exists r tr,
      transcribe_audio decoder pipe fuel self audio_file [] = (r, tr) /\
      ((exists t,
           r = Returns t /\
           infer_calls tr = batches (batch_size self) [] (map c_data cs) /\
           Forall (fun b => exists x, pipe b = inr x)
                  (batches (batch_size self) [] (map c_data cs)))
       \/
       (exists pre b post e,
           batches (batch_size self) [] (map c_data cs) = pre ++ b :: post /\
           Forall (fun b => exists x, pipe b = inr x) pre /\
           pipe b = inl e /\
           r = Raises (if is_exception e then logging_error_no_msg else e) /\
           infer_calls tr = pre ++ [b])).
Proof.
  intros sample decoder pipe self audio_file audio_data fuel cs Hdec Hgen.
  destruct (for_list_outcome pipe self (map c_data cs) [] [] [Load audio_file])
    as (r & tr & Hrun & Hcase).
  assert (Hbody : transcribe_audio_body decoder pipe fuel self audio_file [] =
                  (r, tr)).
  { rewrite (transcribe_audio_body_for_list _ _ _ _ _ _ _ [] Hdec Hgen).
    exact Hrun. }
  unfold transcribe_audio, except_logging_error. rewrite Hbody.
  destruct Hcase as [(t & -> & Hcalls & Hall)
                    |(pre & b & post & e & Hbs & Hall & Hb & -> & Hcalls)].
  - do 2 eexists. split; [reflexivity|]. left.
    eexists. repeat split; assumption.
  - exists (Raises (if is_exception e then logging_error_no_msg else e)), tr.
    split; [destruct (is_exception e); reflexivity|]. right.
    exists pre, b, post, e. repeat split; assumption.
Qed.

(** The pipeline that fails with a [RuntimeError] on the batch that is not
    full: the first batch is answered, the second is the last one handed
    over, and the caller gets the [TypeError]. *)
Lemma failing_batch_stops_run_witness :
  transcribe_audio demo_decoder flaky_pipe 71%nat scenario_transcriber
                   "speech.wav" [] =
  (Raises logging_error_no_msg,
   [Load "speech.wav"; Infer [List.seq 0 30; List.seq 20 30]; EmptyCache;
    Infer [List.seq 40 30]]) /\
  exists r tr,
    transcribe_audio demo_decoder flaky_pipe 71%nat scenario_transcriber
                     "speech.wav" [] = (r, tr) /\
    ((exists t,
         r = Returns t /\
         infer_calls tr =
         batches 2 [] [List.seq 0 30; List.seq 20 30; List.seq 40 30] /\
         Forall (fun b => exists x, flaky_pipe b = inr x)
                (batches 2 [] [List.seq 0 30; List.seq 20 30; List.seq 40 30]))
     \/
     (exists pre b post e,
         batches 2 [] [List.seq 0 30; List.seq 20 30; List.seq 40 30]
         = pre ++ b :: post /\
         Forall (fun b => exists x, flaky_pipe b = inr x) pre /\
         flaky_pipe b = inl e /\
         r = Raises (if is_exception e then logging_error_no_msg else e) /\
         infer_calls tr = pre ++ [b])).
Proof.
  split; [vm_compute; reflexivity|].
  apply (failing_batch_stops_run
           nat demo_decoder flaky_pipe scenario_transcriber "speech.wav"
           scenario_waveform 71%nat
           [ {| c_start := 0; c_end := 30; c_data := List.seq 0 30 |};
             {| c_start := 20; c_end := 50; c_data := List.seq 20 30 |};
             {| c_start := 40; c_end := 70; c_data := List.seq 40 30 |} ]).
  - reflexivity.
  - vm_compute; reflexivity.
Defined.

(** X11.  An empty waveform, under every configuration.  When [int]
    converts both [chunk_length_seconds * sample_rate] and
    [overlap_seconds * sample_rate], whatever the two integers and the
    batch size are (a stride below one sample, a window or a batch size
    that is not positive), the generator yields nothing and
    [transcribe_audio] returns the empty string.  When one of the products
    is a NaN or an infinity, [int] raises at the first [next], and
    [transcribe_audio] ends in the [TypeError] of its handler.  In both
    cases the audio is loaded and the pipeline is not called. *)
Theorem empty_waveform_empty_transcript :
  forall (sample : Type)
         (decoder : string -> exn + waveform sample)
         (pipe : list (list sample) -> exn + list string)
         (self : AudioTranscriber) (audio_file : string) (fuel : nat),
    decoder audio_file = inr [] ->
    chunk_audio_list (S fuel) self (@nil sample) =
    match chunk_length_samples self, overlap_samples self with
    | inr _, inr _ => Returns []
    | inl e, _ => Raises e
    | inr _, inl e => Raises e
    end /\
    forall tr,
      transcribe_audio decoder pipe (S fuel) self audio_file tr =
      (match chunk_length_samples self, overlap_samples self with
       | inr _, inr _ => Returns ""%string
       | _, _ => Raises logging_error_no_msg
       end,
       tr ++ [Load audio_file]).
Proof.
  intros sample decoder pipe self audio_file fuel Hdec.
  split.
  - unfold chunk_audio_list, chunk_audio. cbn [drain next].
    destruct (chunk_length_samples self) as [e|L]; [reflexivity|].
    destruct (overlap_samples self) as [e|Ov]; reflexivity.
  - intros tr.
    unfold transcribe_audio, except_logging_error, transcribe_audio_body.
    rewrite (bind_load_audio_ok _ _ _ _ _ _ Hdec). cbv zeta.
    unfold chunk_audio, bind. cbn [for_chunks next].
    unfold chunk_length_samples, overlap_samples.
    destruct (py_int (times_rate (chunk_length_seconds self) (sample_rate self)))
      as [e|L] eqn:HL.
    + cbn. rewrite (py_int_error_is_exception _ _ HL).
      destruct (py_int (times_rate (overlap_seconds self) (sample_rate self)));
        reflexivity.
    + destruct (py_int (times_rate (overlap_seconds self) (sample_rate self)))
        as [e|Ov] eqn:HO.
      * cbn. rewrite (py_int_error_is_exception _ _ HO). reflexivity.
      * reflexivity.
Qed.

(** A decoder that gives no sample: under the defaults, and with a window
    of NaN seconds. *)
Lemma empty_waveform_empty_transcript_witness :
  (chunk_audio_list 1%nat default_transcriber (@nil nat) = Returns [] /\
   forall tr,
     transcribe_audio (fun _ => inr []) demo_pipe 1%nat default_transcriber
                      "silence.wav" tr =
     (Returns ""%string, tr ++ [Load "silence.wav"])) /\
  (chunk_audio_list 1%nat nan_transcriber (@nil nat) = Raises nan_to_int /\
   forall tr,
     transcribe_audio (fun _ => inr []) demo_pipe 1%nat nan_transcriber
                      "silence.wav" tr =
     (Raises logging_error_no_msg, tr ++ [Load "silence.wav"])).
Proof.
  split.
  - apply (empty_waveform_empty_transcript
             nat (fun _ => inr []) demo_pipe default_transcriber "silence.wav"
             0%nat); reflexivity.
  - apply (empty_waveform_empty_transcript
             nat (fun _ => inr []) demo_pipe nan_transcriber "silence.wav"
             0%nat); reflexivity.
Defined.

(* ===================================================================== *)
(** ** The callers *)

Section CallerFacts.

Context {sample : Type}.
Variable loader : string -> exn + unit.
Variable decoder : string -> exn + waveform sample.
Variable pipe : list (list sample) -> exn + list string.
Variable downloader : string -> string -> exn + unit.
Variable writer : string -> string -> exn + unit.

Lemma writes_app (tr1 tr2 : list (io sample)) :
  writes (tr1 ++ tr2) = writes tr1 ++ writes tr2.
Proof.
  induction tr1 as [|ev tr1 IH]; [reflexivity|].
  destruct ev; cbn; now rewrite IH.
Qed.

Lemma writes_calls (tr : list (event sample)) : writes (map Call tr) = [].
Proof. induction tr as [|ev tr IH]; [reflexivity | exact IH]. Qed.

Lemma default_windows :
  chunk_length_samples default_transcriber = inr 480000 /\
  overlap_samples default_transcriber = inr 32000.
Proof. split; reflexivity. Qed.

Lemma main_loaded (fuel : nat) (u : unit) :
  loader model_id = inr u ->
  main loader decoder pipe writer fuel =
  match transcribe_audio decoder pipe fuel default_transcriber
                         main_audio_file [] with
  | (Raises e, tr) => (Raises e, [LoadModel model_id] ++ map Call tr)
  | (OutOfFuel, tr) => (OutOfFuel, [LoadModel model_id] ++ map Call tr)
  | (Returns transcription, tr) =>
      match writer main_output_file transcription with
      | inl e =>
          (Raises e,
           [LoadModel model_id] ++ map Call tr
             ++ [WriteFile main_output_file transcription])
      | inr _ =>
          (Returns tt,
           [LoadModel model_id] ++ map Call tr
             ++ [WriteFile main_output_file transcription;
                 Print "
Transcription:";
                 Print transcription])
      end
  end.
Proof.
  intros H. unfold main, __init__, _load_model_and_pipeline.
  rewrite H. reflexivity.
Qed.

End CallerFacts.

(** X12.  How failures come out of [main], whose handler re-raises.  When
    loading the model raises, [main] raises that exception and nothing else
    is called.  When [transcribe_audio] raises (the [TypeError] of its
    handler, or something [except Exception] does not catch), [main]
    raises the same and no file is written; so when the decoder raises an
    instance of [Exception], [main] ends in the [TypeError] after the model
    load and the one call of the decoder.  When writing the transcript
    raises, [main] raises that exception. *)
Theorem main_exceptions :
  forall (sample : Type)
         (loader : string -> exn + unit)
         (decoder : string -> exn + waveform sample)
         (pipe : list (list sample) -> exn + list string)
         (writer : string -> string -> exn + unit)
         (fuel : nat),
    (forall e,
        loader model_id = inl e ->
        main loader decoder pipe writer fuel = (Raises e, [LoadModel model_id]))
    /\
    (forall u e tr,
        loader model_id = inr u ->
        transcribe_audio decoder pipe fuel default_transcriber
                         main_audio_file [] = (Raises e, tr) ->
        (e = logging_error_no_msg \/ is_exception e = false) /\
        main loader decoder pipe writer fuel =
        (Raises e, LoadModel model_id :: map Call tr) /\
        writes (snd (main loader decoder pipe writer fuel)) = [])
    /\
    (forall u e,
        loader model_id = inr u ->
        decoder main_audio_file = inl e ->
        main loader decoder pipe writer fuel =
        (Raises (if is_exception e then logging_error_no_msg else e),
         [LoadModel model_id; Call (Load main_audio_file)]))
    /\
    (forall u transcription tr e,
        loader model_id = inr u ->
        transcribe_audio decoder pipe fuel default_transcriber
                         main_audio_file [] = (Returns transcription, tr) ->
        writer main_output_file transcription = inl e ->
        fst (main loader decoder pipe writer fuel) = Raises e).
Proof.
  intros sample loader decoder pipe writer fuel.
  split; [|split; [|split]].
  - intros e Hload.
    unfold main, __init__, _load_model_and_pipeline. rewrite Hload. reflexivity.
  - intros u e tr Hload Hrun.
    rewrite (main_loaded loader decoder pipe writer fuel u Hload), Hrun.
    split; [|split].
    + apply (transcribe_audio_raises decoder pipe fuel default_transcriber
                                     main_audio_file []).
      now rewrite Hrun.
    + reflexivity.
    + cbn [snd app writes]. apply writes_calls.
  - intros u e Hload Hdec.
    rewrite (main_loaded loader decoder pipe writer fuel u Hload).
    rewrite (transcribe_audio_load_fails decoder pipe fuel default_transcriber
                                         main_audio_file [] e Hdec).
    reflexivity.
  - intros u t tr e Hload Hrun Hw.
    rewrite (main_loaded loader decoder pipe writer fuel u Hload), Hrun, Hw.
    reflexivity.
Qed.

(** The file of [main] is missing: [main] raises the [TypeError], having
    loaded the model and called the decoder. *)
Lemma main_exceptions_witness :
  no_decoder main_audio_file =
  inl (mkExn "FileNotFoundError" main_audio_file) /\
  main ok_loader no_decoder demo_pipe ok_writer 71%nat =
  (Raises logging_error_no_msg,
   [LoadModel model_id; Call (Load main_audio_file)]).
Proof.
  split; [reflexivity|].
  apply (proj1 (proj2 (proj2 (main_exceptions nat ok_loader no_decoder
                                              demo_pipe ok_writer 71%nat)))
               tt (mkExn "FileNotFoundError" main_audio_file));
    reflexivity.
Defined.

(** X13.  When the model loads, the decoder reads the file of [main], the
    pipeline gives the text [fragment c] for every chunk [c] and the file
    can be written, [main] returns, having written once, to its output
    file, the texts of the chunks of the default windows (480000 samples
    every 448000 samples) joined by spaces. *)
Theorem main_writes_transcript :
  forall (sample : Type)
         (loader : string -> exn + unit)
         (decoder : string -> exn + waveform sample)
         (pipe : list (list sample) -> exn + list string)
         (writer : string -> string -> exn + unit)
         (fragment : list sample -> string)
         (audio_data : waveform sample) (fuel : nat),
    (exists u, loader model_id = inr u) ->
    decoder main_audio_file = inr audio_data ->
    (forall b, pipe b = inr (map fragment b)) ->
    (forall path content, exists u, writer path content = inr u) ->
    (List.length audio_data < fuel)%nat ->
    exists cs,
      chunk_audio_list fuel default_transcriber audio_data = Returns cs /\
      (forall (i : nat) c,
          nth_error cs i = Some c ->
          c_start c = Z.of_nat i * 448000 /\
          c_end c = Z.min (c_start c + 480000) (len audio_data)) /\
      fst (main loader decoder pipe writer fuel) = Returns tt /\
      writes (snd (main loader decoder pipe writer fuel)) =
      [(main_output_file,
        join " " (map (fun c => fragment (c_data c)) cs))].
Proof.
  intros sample loader decoder pipe writer fragment audio_data fuel
         (u & Hload) Hdec Hpipe Hwriter Hfuel.
  destruct (@default_windows) as (HL & HO).
  assert (Hs : 1 <= 480000 - 32000) by lia.
  destruct (chunk_audio_list_shape default_transcriber audio_data
                                   480000 32000 HL HO Hs fuel Hfuel)
    as (cs & Hgen & Hok & _).
  exists cs. split; [exact Hgen|]. split.
  - intros i c Hi.
    destruct (chunks_ok_nth _ _ _ _ Hok i c Hi) as (Hst & _ & Hend & _).
    split; [lia | exact Hend].
  - rewrite (main_loaded loader decoder pipe writer fuel u Hload).
    rewrite (transcribe_audio_trace decoder pipe default_transcriber
                                    main_audio_file audio_data fuel cs
                                    (map fragment) Hdec Hgen
                                    (fun b _ => Hpipe b)).
    rewrite <- concat_map, batches_concat. cbn [app]. rewrite map_map.
    destruct (Hwriter main_output_file
                      (join " " (map (fun c => fragment (c_data c)) cs)))
      as (u' & ->).
    split; [reflexivity|]. cbn [snd writes].
    rewrite !writes_app, writes_calls. reflexivity.
Qed.

(** The file of [main] holds the 70 samples: one chunk, one word. *)
Lemma main_writes_transcript_witness :
  exists cs,
    chunk_audio_list 71%nat default_transcriber scenario_waveform = Returns cs /\
    (forall (i : nat) c,
        nth_error cs i = Some c ->
        c_start c = Z.of_nat i * 448000 /\
        c_end c = Z.min (c_start c + 480000) (len scenario_waveform)) /\
    fst (main ok_loader main_decoder demo_pipe ok_writer 71%nat) = Returns tt /\
    writes (snd (main ok_loader main_decoder demo_pipe ok_writer 71%nat)) =
    [(main_output_file,
      join " " (map (fun c => demo_fragment (c_data c)) cs))].
Proof.
  apply (main_writes_transcript nat ok_loader main_decoder demo_pipe ok_writer
                                demo_fragment scenario_waveform 71%nat).
  - exists tt. reflexivity.
  - reflexivity.
  - intros b. reflexivity.
  - intros path content. exists tt. reflexivity.
  - vm_compute; lia.
Defined.



(* ===================================================================== *)
(** ** Runs that do not end, and what the pipeline is given *)

Lemma batches_nonempty {X : Type} (B : Z) (chunks : list X) : forall buf,
  Forall (fun b => b <> []) (batches B buf chunks).
Proof.
  induction chunks as [|c cs IH]; intros buf; cbn [batches].
  - destruct buf; constructor; [discriminate | constructor].
  - destruct (len (buf ++ [c]) =? B); [|apply IH].
    constructor; [|apply IH]. destruct buf; discriminate.
Qed.

Lemma batches_bounded {X : Type} (B : Z) (chunks : list X) : forall buf,
  1 <= B -> len buf < B ->
  Forall (fun b => len b <= B) (batches B buf chunks).
Proof.
  induction chunks as [|c cs IH]; intros buf HB Hbuf; cbn [batches].
  - destruct buf; constructor; [lia | constructor].
  - destruct (Z.eqb_spec (len (buf ++ [c])) B) as [E|E].
    + constructor; [lia | apply IH; cbn; lia].
    + rewrite len_app_one in E. apply IH; [lia | rewrite len_app_one; lia].
Qed.

Section StuckRuns.

Context {sample : Type}.
Variable decoder : string -> exn + waveform sample.
Variable pipe : list (list sample) -> exn + list string.
Variable self : AudioTranscriber.
Variable audio_data : waveform sample.
Variables L Ov : Z.
Hypothesis HL : chunk_length_samples self = inr L.
Hypothesis HO : overlap_samples self = inr Ov.

(** The calls of the pipeline in any run are batches of the chunks. *)
Lemma infer_calls_in_batches file fuel cs :
  decoder file = inr audio_data ->
  chunk_audio_list fuel self audio_data = Returns cs ->
  forall b,
    In b (infer_calls (snd (transcribe_audio decoder pipe fuel self file []))) ->
    In b (batches (batch_size self) [] (map c_data cs)).
Proof.
  intros Hdec Hgen b Hb.
  destruct (for_list_outcome pipe self (map c_data cs) [] [] [Load file])
    as (r & tr & Hrun & Hcase).
  assert (Hbody : transcribe_audio_body decoder pipe fuel self file [] = (r, tr)).
  { rewrite (transcribe_audio_body_for_list _ _ _ _ _ _ _ [] Hdec Hgen).
    exact Hrun. }
  assert (Hsnd : snd (transcribe_audio decoder pipe fuel self file []) = tr).
  { unfold transcribe_audio, except_logging_error. rewrite Hbody.
    destruct r as [t|e|]; [reflexivity | | reflexivity].
    destruct (is_exception e); reflexivity. }
  rewrite Hsnd in Hb.
  destruct Hcase as [(t & _ & Hcalls & _)
                    |(pre & b' & post & e & Hbs & _ & _ & _ & Hcalls)];
    rewrite Hcalls in Hb; cbn [infer_calls app] in Hb.
  - exact Hb.
  - rewrite Hbs. apply in_app_iff.
    apply in_app_iff in Hb. destruct Hb as [Hb|[<-|[]]]; [now left|].
    right. now left.
Qed.

Hypothesis Hs : L - Ov < 1.
Hypothesis Hpos : 0 < len audio_data.
Hypothesis Hlong : L < len audio_data.
Hypothesis HB : 1 <= batch_size self.
Hypothesis Hpipe : forall b, exists r, pipe b = inr r.

(** With a stride below one sample and a waveform longer than the window,
    every unit of fuel is one more chunk for the loop. *)
Lemma for_chunks_stuck : forall (fuel : nat) fr buf all tr,
  f_chunk_length_samples fr = L ->
  f_overlap_samples fr = Ov ->
  f_start fr + (L - Ov) <= 0 ->
  f_end fr <> len audio_data ->
  len buf < batch_size self ->
  exists tr',
    for_chunks pipe fuel self audio_data (Suspended fr) buf all tr =
    (OutOfFuel, tr') /\
    len (infer_calls tr') =
    len (infer_calls tr) + (len buf + Z.of_nat fuel) / batch_size self.
Proof.
  induction fuel as [|k IH]; intros fr buf all tr HfL HfO Hst Hend Hbuf.
  - exists tr. split; [reflexivity|]. pose proof (len_nonneg buf).
    rewrite Z.add_0_r, Z.div_small by lia. lia.
  - cbn [for_chunks next].
    destruct (Z.eqb_spec (f_end fr) (len audio_data)) as [E|_]; [contradiction|].
    rewrite HfL, HfO. unfold loop_head.
    destruct (Z.ltb_spec (f_start fr + (L - Ov)) (len audio_data)) as [_|E2];
      [|lia].
    set (st := f_start fr + (L - Ov)) in *.
    set (c := py_slice audio_data st (Z.min (st + L) (len audio_data))).
    set (fr' := {| f_chunk_length_samples := L; f_overlap_samples := Ov;
                   f_start := st;
                   f_end := Z.min (st + L) (len audio_data) |}).
    cbn [c_data]. pose proof (len_nonneg buf).
    destruct (Z.eqb_spec (len (buf ++ [c])) (batch_size self)) as [E|E];
      rewrite len_app_one in E.
    + destruct (Hpipe (buf ++ [c])) as (r & Hr).
      rewrite (bind_transcribe_batch_ok _ _ _ _ _ _ Hr), bind_empty_cache.
      destruct (IH fr' [] (all ++ r) ((tr ++ [Infer (buf ++ [c])]) ++ [EmptyCache]))
        as (tr' & Hrun & Hcount);
        [reflexivity | reflexivity | cbn; lia | cbn; lia | cbn; lia |].
      exists tr'. split; [exact Hrun|].
      rewrite Hcount, !infer_calls_app. cbn [infer_calls app].
      rewrite app_nil_r. unfold len at 1. rewrite length_app. cbn [List.length].
      change (len (@nil (list sample))) with 0. rewrite Z.add_0_l.
      rewrite Nat2Z.inj_succ.
      replace (len buf + Z.succ (Z.of_nat k))
        with (Z.of_nat k + 1 * batch_size self) by lia.
      rewrite Z.div_add by lia. unfold len. lia.
    + destruct (IH fr' (buf ++ [c]) all tr) as (tr' & Hrun & Hcount);
        [reflexivity | reflexivity | cbn; lia | cbn; lia
         | rewrite len_app_one; lia |].
      exists tr'. split; [exact Hrun|].
      rewrite Hcount, len_app_one, Nat2Z.inj_succ. f_equal. f_equal. lia.
Qed.

Lemma for_chunks_created (fuel : nat) buf all tr :
  for_chunks pipe fuel self audio_data Created buf all tr =
  for_chunks pipe fuel self audio_data
             (Suspended {| f_chunk_length_samples := L;
                           f_overlap_samples := Ov;
                           f_start := - (L - Ov); f_end := -1 |})
             buf all tr.
Proof.
  destruct fuel as [|k]; [reflexivity|].
  cbn [for_chunks]. rewrite (next_created _ _ _ _ HL HO).
  cbn [next f_end f_start f_chunk_length_samples f_overlap_samples].
  destruct (Z.eqb_spec (-1) (len audio_data)) as [E|_]; [lia|].
  replace (- (L - Ov) + (L - Ov)) with 0 by lia. reflexivity.
Qed.

End StuckRuns.

(** X15.  With a stride below one sample, a waveform longer than the
    window, a batch size of at least 1 and a pipeline that does not fail,
    [transcribe_audio] does not come to an end: after [k] calls of [next]
    it is still in the loop and has called the pipeline [k // B] times. *)
Theorem zero_stride_run_never_returns :
  forall (sample : Type)
         (decoder : string -> exn + waveform sample)
         (pipe : list (list sample) -> exn + list string)
         (self : AudioTranscriber) (audio_file : string)
         (audio_data : waveform sample) (L Ov : Z),
    chunk_length_samples self = inr L ->
    overlap_samples self = inr Ov ->
    L - Ov < 1 ->
    0 < len audio_data ->
    L < len audio_data ->
    1 <= batch_size self ->
    decoder audio_file = inr audio_data ->
    (forall b, exists r, pipe b = inr r) ->
    forall fuel : nat,
    exists tr,
      transcribe_audio decoder pipe fuel self audio_file [] = (OutOfFuel, tr) /\
      len (infer_calls tr) = Z.of_nat fuel / batch_size self.
Proof.
  intros sample decoder pipe self audio_file audio_data L Ov
         HL HO Hs Hpos Hlong HB Hdec Hpipe fuel.
  destruct (for_chunks_stuck pipe self audio_data L Ov Hs Hpos Hlong HB Hpipe fuel
              {| f_chunk_length_samples := L; f_overlap_samples := Ov;
                 f_start := - (L - Ov); f_end := -1 |}
              [] [] [Load audio_file])
    as (tr & Hrun & Hcount);
    [reflexivity | reflexivity | cbn; lia | cbn; lia | cbn; lia |].
  exists tr. split.
  - unfold transcribe_audio, except_logging_error, transcribe_audio_body.
    rewrite (bind_load_audio_ok _ _ _ _ _ _ Hdec). cbv zeta.
    unfold chunk_audio, bind.
    rewrite (for_chunks_created pipe self audio_data L Ov HL HO Hpos).
    cbn [app]. rewrite Hrun. reflexivity.
  - rewrite Hcount. reflexivity.
Qed.

(** A window and an overlap of one second each on 16001 samples, in
    batches of 8. *)
Lemma zero_stride_run_never_returns_witness :
  exists tr,
    transcribe_audio (fun _ => inr stuck_waveform)
                     (fun b => inr (map (fun _ => "word"%string) b))
                     20%nat stuck_transcriber "long.wav" [] = (OutOfFuel, tr) /\
    len (infer_calls tr) = Z.of_nat 20 / 8.
Proof.
  assert (Hlen : len stuck_waveform = 16001).
  { unfold len, stuck_waveform. rewrite repeat_length. lia. }
  apply (zero_stride_run_never_returns
           nat (fun _ => inr stuck_waveform)
           (fun b => inr (map (fun _ => "word"%string) b))
           stuck_transcriber "long.wav" stuck_waveform 16000 16000).
  - reflexivity.
  - reflexivity.
  - lia.
  - rewrite Hlen; lia.
  - rewrite Hlen; lia.
  - unfold stuck_transcriber, DEFAULT_BATCH_SIZE; cbn; lia.
  - reflexivity.
  - intros b. eexists. reflexivity.
Defined.

(** X16.  In every run in which the audio is loaded and the generator
    comes to its end, also one the pipeline makes fail, the pipeline is
    never given an empty batch, every batch it is given is made of chunks
    the generator yielded, and with a batch size [B >= 1] no batch has more
    than [B] chunks. *)
Theorem pipeline_batches_bounded :
  forall (sample : Type)
         (decoder : string -> exn + waveform sample)
         (pipe : list (list sample) -> exn + list string)
         (self : AudioTranscriber) (audio_file : string)
         (audio_data : waveform sample) (fuel : nat)
         (cs : list (Chunk sample)),
    decoder audio_file = inr audio_data ->
    chunk_audio_list fuel self audio_data = Returns cs ->
    forall b,
      In b (infer_calls
              (snd (transcribe_audio decoder pipe fuel self audio_file []))) ->
      b <> [] /\
      (forall chunk, In chunk b -> In chunk (map c_data cs)) /\
      (1 <= batch_size self -> len b <= batch_size self).
Proof.
  intros sample decoder pipe self audio_file audio_data fuel cs Hdec Hgen b Hb.
  pose proof (infer_calls_in_batches decoder pipe self audio_data
                                     audio_file fuel cs Hdec Hgen b Hb) as Hin.
  split; [|split].
  - pose proof (batches_nonempty (batch_size self) (map c_data cs) []) as Hne.
    rewrite Forall_forall in Hne. exact (Hne b Hin).
  - intros chunk Hc.
    pose proof (batches_concat (batch_size self) (map c_data cs) []) as Hcat.
    cbn [app] in Hcat. rewrite <- Hcat. apply in_concat. now exists b.
  - intros HB.
    pose proof (batches_bounded (batch_size self) (map c_data cs) [] HB) as Hle.
    rewrite Forall_forall in Hle. apply Hle; [cbn; lia | exact Hin].
Qed.

(** The scenario with the pipeline that fails on its second batch. *)
Lemma pipeline_batches_bounded_witness :
  In [List.seq 40 30]
     (infer_calls
        (snd (transcribe_audio demo_decoder flaky_pipe 71%nat
                               scenario_transcriber "speech.wav" []))) /\
  [List.seq 40 30] <> [] /\
  (forall chunk,
      In chunk [List.seq 40 30] ->
      In chunk [List.seq 0 30; List.seq 20 30; List.seq 40 30]) /\
  (1 <= 2 -> len [List.seq 40 30] <= 2).
Proof.
  assert (Hin : In [List.seq 40 30]
                   (infer_calls
                      (snd (transcribe_audio demo_decoder flaky_pipe 71%nat
                                             scenario_transcriber
                                             "speech.wav" []))))
    by (vm_compute; right; left; reflexivity).
  split; [exact Hin|].
  apply (pipeline_batches_bounded
           nat demo_decoder flaky_pipe scenario_transcriber "speech.wav"
           scenario_waveform 71%nat
           [ {| c_start := 0; c_end := 30; c_data := List.seq 0 30 |};
             {| c_start := 20; c_end := 50; c_data := List.seq 20 30 |};
             {| c_start := 40; c_end := 70; c_data := List.seq 40 30 |} ]).
  - reflexivity.
  - vm_compute; reflexivity.
  - exact Hin.
Defined.
